(** * NodeModal: row normalizer, path formatter, commit handler

    A shallow embedding of [src/features/modals/NodeModal/index.tsx]:
    [normalizeNodeData], [jsonPathToString] and the [onClick] handler of the
    Save button, together with the fragment of JavaScript they rely on
    (template literals, [Array.prototype.join], property assignment on an
    object literal, [JSON.stringify]).

    Conventions of the model.
    - A JavaScript string is the [string] of the bytes of its UTF-8 encoding.
      Concatenation and equality are those of the bytes, and every character
      the code or [JSON.stringify] looks at is an ASCII character, one byte.
      A string with an unpaired surrogate is outside the model.
    - A JavaScript number is an integer [Z] whose decimal rendering is the one
      [Number::toString] produces (integers below 10^21 in absolute value);
      fractional numbers, NaN and the infinities are outside the model.
    - [null] and [undefined] keys are both [None]: the code only tests keys
      for truthiness.
    - [modify] and [applyEdits] come from the package [jsonc-parser] and are
      parameters of the handler; the setters of the stores are modelled from
      the specification. *)

From Stdlib Require Import String Ascii List ZArith NArith Bool Lia.
From Stdlib Require Import DecimalString DecimalPos DecimalN DecimalZ.
Import ListNotations.
Open Scope string_scope.

(* ================================================================== *)
(** ** The JavaScript fragment *)
(* ================================================================== *)

Module JS.

(** Characters that cannot be written inside a string literal here. *)
Definition dquote : ascii := "034"%char.
Definition backslash : ascii := "092"%char.
Definition newline : ascii := "010"%char.

Definition str1 (c : ascii) : string := String c EmptyString.

(** Primitive values a row can hold: [string | number | null | boolean]. *)
Inductive JsValue : Type :=
| VNull
| VBool (b : bool)
| VNum (z : Z)
| VStr (s : string).

(** [Number::toString] on integers. *)
Definition Number_toString (z : Z) : string :=
  NilEmpty.string_of_int (Z.to_int z).

(** [ToString], as applied by template literals, [String(v)] and [join]. *)
Definition ToString (v : JsValue) : string :=
  match v with
  | VNull => "null"
  | VBool true => "true"
  | VBool false => "false"
  | VNum z => Number_toString z
  | VStr s => s
  end.

(** Truthiness of a key of type [string | null | undefined]. *)
Definition truthy_key (k : option string) : bool :=
  match k with
  | None => false
  | Some s => negb (s =? EmptyString)
  end.

(** *** QuoteJSONString *)

Definition hex_digit (n : N) : ascii :=
  if (n <? 10)%N then ascii_of_N (48 + n) else ascii_of_N (87 + n).

(** [\u00XX], for a control character. *)
Definition UnicodeEscape (c : ascii) : string :=
  let n := N_of_ascii c in
  String backslash
    (String "u" (String "0" (String "0"
      (String (hex_digit (n / 16)) (String (hex_digit (n mod 16)) EmptyString))))).

Definition escape_char (c : ascii) : string :=
  let n := N_of_ascii c in
  if (n =? 8)%N then String backslash "b"
  else if (n =? 9)%N then String backslash "t"
  else if (n =? 10)%N then String backslash "n"
  else if (n =? 12)%N then String backslash "f"
  else if (n =? 13)%N then String backslash "r"
  else if (n =? 34)%N then String backslash (str1 dquote)
  else if (n =? 92)%N then String backslash (str1 backslash)
  else if (n <? 32)%N then UnicodeEscape c
  else str1 c.

Fixpoint escape (s : string) : string :=
  match s with
  | EmptyString => EmptyString
  | String c r => escape_char c ++ escape r
  end.

Definition QuoteJSONString (s : string) : string :=
  String dquote (escape s ++ str1 dquote).

(** *** Array.prototype.join *)

Definition Array_join (sep : string) (l : list JsValue) : string :=
  String.concat sep (map ToString l).

(** *** An object literal used as a map

    [own] lists the own properties in creation order.  The object starts
    with [Object.prototype] as its prototype, whose only accessor property is
    [__proto__]; its setter ignores primitives other than [null] and, given
    [null], removes the prototype. *)

Record JsObject : Type := mkObject {
  has_Object_prototype : bool;
  own : list (string * JsValue)
}.

Definition empty_object : JsObject := mkObject true [].

Definition has_own (k : string) (l : list (string * JsValue)) : bool :=
  existsb (fun kv => fst kv =? k) l.

Fixpoint replace_own (k : string) (v : JsValue) (l : list (string * JsValue))
  : list (string * JsValue) :=
  match l with
  | [] => []
  | (k', v') :: r =>
      if k' =? k then (k', v) :: r else (k', v') :: replace_own k v r
  end.

(** [obj[k] = v] for a primitive [v]. *)
Definition Set_ (o : JsObject) (k : string) (v : JsValue) : JsObject :=
  if has_own k (own o) then
    mkObject (has_Object_prototype o) (replace_own k v (own o))
  else if (k =? "__proto__") && has_Object_prototype o then
    match v with
    | VNull => mkObject false (own o)
    | _ => o
    end
  else mkObject (has_Object_prototype o) (own o ++ [(k, v)]).

(** An array index is the canonical decimal form of an integer below
    2^32 - 1. *)
Definition array_index (k : string) : option N :=
  match NilEmpty.uint_of_string k with
  | Some d =>
      let n := N.of_uint d in
      if (NilEmpty.string_of_uint (N.to_uint n) =? k) && (n <? 4294967295)%N
      then Some n else None
  | None => None
  end.

Definition is_array_index (k : string) : bool :=
  match array_index k with Some _ => true | None => false end.

Definition index_of (k : string) : N :=
  match array_index k with Some n => n | None => 0%N end.

Fixpoint insert_by_index (e : string * JsValue) (l : list (string * JsValue))
  : list (string * JsValue) :=
  match l with
  | [] => [e]
  | e' :: r =>
      if (index_of (fst e) <=? index_of (fst e'))%N then e :: e' :: r
      else e' :: insert_by_index e r
  end.

Definition sort_by_index (l : list (string * JsValue)) : list (string * JsValue) :=
  fold_right insert_by_index [] l.

(** [EnumerableOwnProperties]: array indices in ascending numeric order, then
    the other keys in creation order. *)
Definition EnumerableOwnProperties (o : JsObject) : list (string * JsValue) :=
  sort_by_index (filter (fun kv => is_array_index (fst kv)) (own o))
  ++ filter (fun kv => negb (is_array_index (fst kv))) (own o).

(** *** JSON.stringify *)

Definition SerializeJSONProperty (v : JsValue) : string :=
  match v with
  | VNull => "null"
  | VBool true => "true"
  | VBool false => "false"
  | VNum z => Number_toString z
  | VStr s => QuoteJSONString s
  end.

Definition indent2 : string := "  ".

Definition SerializeJSONMember (kv : string * JsValue) : string :=
  QuoteJSONString (fst kv) ++ ": " ++ SerializeJSONProperty (snd kv).

(** [SerializeJSONObject] with gap ["  "] at the top level. *)
Definition SerializeJSONObject (entries : list (string * JsValue)) : string :=
  match entries with
  | [] => "{}"
  | _ =>
      "{" ++ str1 newline ++ indent2
      ++ String.concat ("," ++ str1 newline ++ indent2)
                       (map SerializeJSONMember entries)
      ++ str1 newline ++ "}"
  end.

(** [JSON.stringify(obj, null, 2)] for an object of primitives. *)
Definition JSON_stringify_object (o : JsObject) : string :=
  SerializeJSONObject (EnumerableOwnProperties o).

(** *** Reading back what [JSON.stringify] writes *)

Definition hex_value (c : ascii) : option N :=
  let n := N_of_ascii c in
  if (48 <=? n)%N && (n <=? 57)%N then Some (n - 48)%N
  else if (97 <=? n)%N && (n <=? 102)%N then Some (n - 87)%N
  else None.

Definition simple_escape (e : ascii) : option ascii :=
  let n := N_of_ascii e in
  if (n =? 98)%N then Some "008"%char
  else if (n =? 116)%N then Some "009"%char
  else if (n =? 110)%N then Some "010"%char
  else if (n =? 102)%N then Some "012"%char
  else if (n =? 114)%N then Some "013"%char
  else if (n =? 34)%N then Some dquote
  else if (n =? 92)%N then Some backslash
  else None.

(** The character of a [\u] escape, when it is an ASCII character. *)
Definition hex4 (h1 h2 h3 h4 : ascii) : option ascii :=
  match hex_value h1, hex_value h2, hex_value h3, hex_value h4 with
  | Some 0%N, Some 0%N, Some a, Some b =>
      if (16 * a + b <? 128)%N then Some (ascii_of_N (16 * a + b)) else None
  | _, _, _, _ => None
  end.

Definition push (c : ascii) (r : option (string * string)) : option (string * string) :=
  match r with
  | Some (s, rest) => Some (String c s, rest)
  | None => None
  end.

(** Reads a JSON string token after its opening quote: the characters it denotes
    and the input after its closing quote. *)
Fixpoint read_chars (s : string) : option (string * string) :=
  match s with
  | EmptyString => None
  | String c r =>
      if (c =? dquote)%char then Some (EmptyString, r)
      else if (c =? backslash)%char then
        match r with
        | EmptyString => None
        | String e r' =>
            match simple_escape e with
            | Some d => push d (read_chars r')
            | None =>
                if (e =? "u")%char then
                  match r' with
                  | String h1 (String h2 (String h3 (String h4 r''))) =>
                      match hex4 h1 h2 h3 h4 with
                      | Some d => push d (read_chars r'')
                      | None => None
                      end
                  | _ => None
                  end
                else None
            end
        end
      else push c (read_chars r)
  end.

Definition read_string (s : string) : option (string * string) :=
  match s with
  | String c r => if (c =? dquote)%char then read_chars r else None
  | EmptyString => None
  end.

Definition is_digit (c : ascii) : bool :=
  (48 <=? N_of_ascii c)%N && (N_of_ascii c <=? 57)%N.

(** The digits a text starts with, and what follows them. *)
Fixpoint read_digits (s : string) : string * string :=
  match s with
  | EmptyString => (EmptyString, EmptyString)
  | String c r =>
      if is_digit c
      then (String c (fst (read_digits r)), snd (read_digits r))
      else (EmptyString, s)
  end.

End JS.
Import JS.

(* ================================================================== *)
(** ** Graph types ([types/graph]) *)
(* ================================================================== *)

(** Modelled from the spec: the row types, whose declaration is imported from
    [types/graph]; section 3 of the specification lists these six. *)
Inductive NodeType : Type :=
| TString | TNumber | TBoolean | TNull | TObject | TArray.

Definition NodeType_eqb (a b : NodeType) : bool :=
  match a, b with
  | TString, TString | TNumber, TNumber | TBoolean, TBoolean
  | TNull, TNull | TObject, TObject | TArray, TArray => true
  | _, _ => false
  end.

Record NodeRow : Type := mkRow {
  key : option string;
  value : JsValue;
  type : NodeType
}.

(** A path segment: an array index or an object key. *)
Inductive Segment : Type :=
| SIdx (n : N)
| SKey (s : string).

Definition JSONPath : Type := list Segment.

(** [NodeData]; the layout fields [width] and [height] play no part here. *)
Record NodeData : Type := mkNode {
  id : string;
  text : list NodeRow;
  path : option JSONPath
}.

(* ================================================================== *)
(** ** normalizeNodeData *)
(* ================================================================== *)

(** The body of the [forEach] callback. *)
Definition normalize_step (obj : JsObject) (row : NodeRow) : JsObject :=
  if negb (NodeType_eqb (type row) TArray) && negb (NodeType_eqb (type row) TObject)
  then if truthy_key (key row)
       then match key row with
            | Some k => Set_ obj k (value row)
            | None => obj
            end
       else obj
  else obj.

Definition normalizeNodeData (nodeRows : option (list NodeRow)) : string :=
  match nodeRows with
  | None => "{}"
  | Some rows =>
      match rows with
      | [] => "{}"
      | row0 :: rest =>
          if (List.length rows =? 1)%nat && negb (truthy_key (key row0))
          then ToString (value row0)
          else JSON_stringify_object (fold_left normalize_step rows empty_object)
      end
  end.

(* ================================================================== *)
(** ** jsonPathToString *)
(* ================================================================== *)

(** The callback of [path.map]: numbers stay numbers, strings are wrapped in
    double quotes. *)
Definition path_segment (seg : Segment) : JsValue :=
  match seg with
  | SIdx n => VNum (Z.of_N n)
  | SKey s => VStr (String dquote (s ++ str1 dquote))
  end.

Definition jsonPathToString (path : option JSONPath) : string :=
  match path with
  | None => "$"
  | Some p =>
      if (List.length p =? 0)%nat then "$"
      else "$[" ++ Array_join "][" (map path_segment p) ++ "]"
  end.

(* ================================================================== *)
(** ** The Save handler *)
(* ================================================================== *)

(** [JSON.stringify] of a path, as the reconciliation uses it: [undefined]
    for an undefined path, the bracketed, comma-separated elements otherwise.
    A number is printed by [Number::toString], a string by
    [QuoteJSONString]. *)
Definition SerializeJSONSegment (seg : Segment) : string :=
  match seg with
  | SIdx n => Number_toString (Z.of_N n)
  | SKey s => QuoteJSONString s
  end.

Definition JSON_stringify_path (p : option JSONPath) : option string :=
  match p with
  | None => None
  | Some segs => Some ("[" ++ String.concat "," (map SerializeJSONSegment segs) ++ "]")
  end.

(** [a === b] on values that are a string or [undefined]. *)
Definition strict_equal (a b : option string) : bool :=
  match a, b with
  | None, None => true
  | Some x, Some y => x =? y
  | _, _ => false
  end.

(** A computation that may throw.  The handler's [catch] blocks ignore the
    exception, so it carries nothing. *)
Inductive Result (A : Type) : Type :=
| Ok (a : A)
| Throw.
Arguments Ok {A} a.
Arguments Throw {A}.

Definition bind {A B : Type} (m : Result A) (f : A -> Result B) : Result B :=
  match m with
  | Ok a => f a
  | Throw => Throw
  end.

Notation "x <- m ;; k" := (bind m (fun x => k))
  (at level 61, m at next level, right associativity).

(** [jsonc-parser]'s edit and formatting options. *)
Record Edit : Type := mkEdit {
  edit_offset : nat;
  edit_length : nat;
  edit_content : string
}.

Record FormattingOptions : Type := mkFormatting {
  insertSpaces : bool;
  tabSize : nat
}.

(** The stores the handler reads and writes: [useJson] ([json]), [useFile]
    ([contents], [hasChanges]) and [useGraph] ([nodes], [selectedNode]). *)
Record Store : Type := mkStore {
  json : option string;
  contents : string;
  hasChanges : bool;
  nodes : list NodeData;
  selectedNode : option NodeData
}.

(** The component's local state. *)
Record ModalState : Type := mkModal {
  editing : bool;
  nameValue : string;
  colorValue : string
}.

Definition setEditing (ui : ModalState) (b : bool) : ModalState :=
  mkModal b (nameValue ui) (colorValue ui).

(** [json ?? ""] and [nodeData.path ?? []]. *)
Definition json_or_empty (st : Store) : string :=
  match json st with Some j => j | None => EmptyString end.

Definition targetPath_of (nodeData : NodeData) : JSONPath :=
  match path nodeData with Some p => p | None => [] end.

Section NodeModal.

(** [modify] and [applyEdits] are imported from [jsonc-parser]; both may
    throw.  [parser] is the graph builder the tree store runs on a new
    text. *)
Variable modify : string -> JSONPath -> string -> FormattingOptions -> Result (list Edit).
Variable applyEdits : string -> list Edit -> Result string.
Variable parser : string -> list NodeData.

(** Modelled from the spec: the setters of the stores, which live outside
    this file.  Publishing a text updates the document and rebuilds the
    tree from it; neither setter touches the selection. *)
Definition setJson (st : Store) (updated : string) : Store :=
  mkStore (Some updated) (contents st) (hasChanges st) (parser updated)
          (selectedNode st).

Definition setContents (st : Store) (c : string) (changes : bool) : Store :=
  mkStore (json st) c changes (nodes st) (selectedNode st).

Definition setSelectedNode (st : Store) (n : NodeData) : Store :=
  mkStore (json st) (contents st) (hasChanges st) (nodes st) (Some n).

(** The block the handler runs for each field: [modify] on the current text
    at [basePath] extended by the field, then [applyEdits] on the same
    text. *)
Definition applyFieldEdit (updated : string) (basePath : JSONPath)
           (field newValue : string) : Result string :=
  edits <- modify updated (basePath ++ [SKey field])%list newValue
                  (mkFormatting true 2) ;;
  applyEdits updated edits.

Definition path_matches (targetPath : JSONPath) (n : NodeData) : bool :=
  strict_equal (JSON_stringify_path (path n))
               (JSON_stringify_path (Some targetPath)).

(** The reconciliation block: select the first node whose stringified
    path is the stringified target path, if there is one. *)
Definition reconcile (st : Store) (nodeData : NodeData) : Store :=
  let targetPath := targetPath_of nodeData in
  match find (path_matches targetPath) (nodes st) with
  | Some matched => setSelectedNode st matched
  | None => st
  end.

(** The body of the outer [try].  The drafts are strings by the type of the
    component state, so both [typeof] guards hold; the calls inside the two
    inner [try] blocks do not throw in this model. *)
Definition commit (st : Store) (ui : ModalState) (nodeData : NodeData)
  : Result Store :=
  let updated := json_or_empty st in
  let basePath := targetPath_of nodeData in
  updated <- applyFieldEdit updated basePath "name" (nameValue ui) ;;
  updated <- applyFieldEdit updated basePath "color" (colorValue ui) ;;
  let st := setJson st updated in
  let st := setContents st updated false in
  let st := reconcile st nodeData in
  Ok st.

(** The [onClick] handler of the Save button.  [nodeData] and [json] are
    the values the component read from the stores. *)
Definition onSave (w : Store * ModalState) : Store * ModalState :=
  let (st, ui) := w in
  match selectedNode st with
  | None => w
  | Some nodeData =>
      match commit st ui nodeData with
      | Ok st' => (st', setEditing ui false)
      | Throw => (st, setEditing ui false)
      end
  end.

End NodeModal.

(* ================================================================== *)
(** ** A patch applier for flat documents *)
(* ================================================================== *)

(** Modelled from the spec: the Patch Applier of section 4.3 ([modify] and
    [applyEdits] of [jsonc-parser], which the file imports), on the fragment
    of documents that are one object of string members or one array of
    strings, written compactly.  It instantiates the handler where a
    statement needs a concrete applier.  In this fragment the only object
    is the root of an object document.  A property cannot be added to an
    array or to a string, and [modify] throws when asked to; an edit whose
    result would lie outside the fragment is refused as well. *)
Module FlatDoc.

Inductive Doc : Type :=
| DObject (members : list (string * string))
| DArray (items : list string).

(** The members after the opening brace, up to the closing brace that ends
    the text. *)
Fixpoint parse_members (fuel : nat) (s : string) : option (list (string * string)) :=
  match fuel with
  | O => None
  | S fuel' =>
      match read_string s with
      | Some (k, String colon r) =>
          if (colon =? ":")%char then
            match read_string r with
            | Some (v, String sep r') =>
                if (sep =? "}")%char then
                  match r' with
                  | EmptyString => Some [(k, v)]
                  | _ => None
                  end
                else if (sep =? ",")%char then
                  match parse_members fuel' r' with
                  | Some ms => Some ((k, v) :: ms)
                  | None => None
                  end
                else None
            | _ => None
            end
          else None
      | _ => None
      end
  end.

(** The items after the opening bracket, up to the closing bracket that
    ends the text. *)
Fixpoint parse_items (fuel : nat) (s : string) : option (list string) :=
  match fuel with
  | O => None
  | S fuel' =>
      match read_string s with
      | Some (v, String sep r') =>
          if (sep =? "]")%char then
            match r' with
            | EmptyString => Some [v]
            | _ => None
            end
          else if (sep =? ",")%char then
            match parse_items fuel' r' with
            | Some vs => Some (v :: vs)
            | None => None
            end
          else None
      | _ => None
      end
  end.

(** The empty text is a document with no member yet. *)
Definition parse (s : string) : option Doc :=
  match s with
  | EmptyString => Some (DObject [])
  | String c r =>
      if (c =? "{")%char then
        match r with
        | String c' EmptyString =>
            if (c' =? "}")%char then Some (DObject []) else None
        | _ => option_map DObject (parse_members (String.length r) r)
        end
      else if (c =? "[")%char then
        match r with
        | String c' EmptyString =>
            if (c' =? "]")%char then Some (DArray []) else None
        | _ => option_map DArray (parse_items (String.length r) r)
        end
      else None
  end.

Definition print_member (kv : string * string) : string :=
  QuoteJSONString (fst kv) ++ ":" ++ QuoteJSONString (snd kv).

Definition print (d : Doc) : string :=
  match d with
  | DObject ms => "{" ++ String.concat "," (map print_member ms) ++ "}"
  | DArray vs => "[" ++ String.concat "," (map QuoteJSONString vs) ++ "]"
  end.

Fixpoint lookup (f : string) (ms : list (string * string)) : option string :=
  match ms with
  | [] => None
  | (k, v) :: r => if k =? f then Some v else lookup f r
  end.

(** Replace the value of the first member named [f], or add the member
    last. *)
Fixpoint set_member (f v : string) (ms : list (string * string))
  : list (string * string) :=
  match ms with
  | [] => [(f, v)]
  | (k, v') :: r => if k =? f then (k, v) :: r else (k, v') :: set_member f v r
  end.

Definition modify (text : string) (p : JSONPath) (newValue : string)
           (_ : FormattingOptions) : Result (list Edit) :=
  match parse text with
  | Some (DObject ms) =>
      match p with
      | [SKey f] =>
          Ok [mkEdit 0 (String.length text)
                     (print (DObject (set_member f newValue ms)))]
      | _ => Throw
      end
  | _ => Throw
  end.

Definition applyEdit (text : string) (e : Edit) : string :=
  substring 0 (edit_offset e) text ++ edit_content e
  ++ substring (edit_offset e + edit_length e)
               (String.length text - (edit_offset e + edit_length e)) text.

(** One edit at a time, the last one first; an edit that reaches beyond the
    previous one's offset overlaps it. *)
Fixpoint applyEdits_from (text : string) (lastModifiedOffset : nat)
         (rev_edits : list Edit) : Result string :=
  match rev_edits with
  | [] => Ok text
  | e :: r =>
      if (edit_offset e + edit_length e <=? lastModifiedOffset)%nat
      then applyEdits_from (applyEdit text e) (edit_offset e) r
      else Throw
  end.

Definition applyEdits (text : string) (edits : list Edit) : Result string :=
  applyEdits_from text (String.length text) (rev edits).

(** Re-parse a text and tell whether a path leads to an object. *)
Definition objectAt (text : string) (p : JSONPath) : bool :=
  match parse text, p with
  | Some (DObject _), [] => true
  | _, _ => false
  end.

(** Re-parse a text and read the string at a path. *)
Definition valueAt (text : string) (p : JSONPath) : option JsValue :=
  match parse text, p with
  | Some (DObject ms), [SKey f] => option_map VStr (lookup f ms)
  | Some (DArray vs), [SIdx i] => option_map VStr (nth_error vs (N.to_nat i))
  | _, _ => None
  end.

Definition item_node (iv : nat * string) : NodeData :=
  mkNode (Number_toString (Z.of_nat (fst iv)))
         [mkRow None (VStr (snd iv)) TString]
         (Some [SIdx (N.of_nat (fst iv))]).

(** The graph of a flat document: the root with a row per member for an
    object, a node with one keyless row per item for an array. *)
Definition parser (text : string) : list NodeData :=
  match parse text with
  | Some (DObject ms) =>
      [mkNode "root"
              (map (fun kv => mkRow (Some (fst kv)) (VStr (snd kv)) TString) ms)
              (Some [])]
  | Some (DArray vs) =>
      map item_node (combine (seq 0 (List.length vs)) vs)
  | None => []
  end.

(** A graph builder that yields no node. *)
Definition no_graph (_ : string) : list NodeData := [].

End FlatDoc.

(* ================================================================== *)
(** ** Notions used by the statements *)
(* ================================================================== *)

(** What the modal shows when it is not editing:
    [normalizeNodeData(nodeData?.text ?? [])] and
    [jsonPathToString(nodeData?.path)]. *)
Definition contentCode (nodeData : option NodeData) : string :=
  normalizeNodeData
    (Some (match nodeData with Some n => text n | None => [] end)).

Definition pathCode (nodeData : option NodeData) : string :=
  jsonPathToString (match nodeData with Some n => path n | None => None end).

Definition is_container (r : NodeRow) : bool :=
  NodeType_eqb (type r) TArray || NodeType_eqb (type r) TObject.

(** The flat projection as the specification words it: the pairs of the rows
    that are no container and have a defined key, in input order. *)
Definition defined_key_entries (rows : list NodeRow) : list (string * JsValue) :=
  flat_map (fun r =>
              if is_container r then []
              else match key r with
                   | Some k => [(k, value r)]
                   | None => []
                   end) rows.

(** The rows the loop assigns: no container, and a key that is truthy. *)
Definition kept (r : NodeRow) : bool :=
  negb (is_container r) && truthy_key (key r).

Definition kept_entries (rows : list NodeRow) : list (string * JsValue) :=
  flat_map (fun r =>
              if kept r
              then match key r with
                   | Some k => [(k, value r)]
                   | None => []
                   end
              else []) rows.

(** A row whose key is the empty string, with the key taken away. *)
Definition blank_key (r : NodeRow) : bool :=
  match key r with
  | Some k => k =? EmptyString
  | None => false
  end.

Definition drop_blank_key (r : NodeRow) : NodeRow :=
  if blank_key r then mkRow None (value r) (type r) else r.

(** One segment of a path expression: the segment between brackets, a number
    bare and a key between double quotes. *)
Definition bracketed (seg : Segment) : string :=
  "[" ++ match seg with
         | SIdx n => Number_toString (Z.of_N n)
         | SKey s => String dquote (s ++ str1 dquote)
         end ++ "]".

(** Structural equality of paths, decided segment by segment. *)
Definition Segment_eqb (a b : Segment) : bool :=
  match a, b with
  | SIdx n, SIdx m => (n =? m)%N
  | SKey s, SKey t => s =? t
  | _, _ => false
  end.

Fixpoint JSONPath_eqb (p q : JSONPath) : bool :=
  match p, q with
  | [], [] => true
  | a :: p', b :: q' => Segment_eqb a b && JSONPath_eqb p' q'
  | _, _ => false
  end.

(** Sample rows. *)
Definition row_blank : NodeRow := mkRow (Some EmptyString) (VNum 1) TNumber.
Definition row_a1 : NodeRow := mkRow (Some "a") (VNum 1) TNumber.
Definition row_a2 : NodeRow := mkRow (Some "a") (VNum 2) TNumber.
Definition row_b : NodeRow := mkRow (Some "b") (VStr "x") TString.
Definition row_1 : NodeRow := mkRow (Some "1") (VStr "y") TString.
Definition row_proto : NodeRow := mkRow (Some "__proto__") (VNum 1) TNumber.
Definition row_items : NodeRow := mkRow (Some "items") VNull TArray.
Definition row_keyless_object : NodeRow := mkRow None VNull TObject.

(** Section 4.4 of the specification, in its own words: search the rebuilt
    tree for a node whose path equals the target path under structural
    equality; if there is one it becomes the selection, otherwise nothing
    happens. *)
Definition path_equals (targetPath : JSONPath) (n : NodeData) : bool :=
  match path n with
  | Some p => JSONPath_eqb p targetPath
  | None => false
  end.

Definition reselect (st : Store) (targetPath : JSONPath) : Store :=
  match find (path_equals targetPath) (nodes st) with
  | Some matched => setSelectedNode st matched
  | None => st
  end.

Definition starts_with_digit (s : string) : bool :=
  match s with
  | String c _ => is_digit c
  | EmptyString => false
  end.

(** Sample documents, selections and drafts. *)
Definition doc_name : string := FlatDoc.print (FlatDoc.DObject [("name", "x")]).
Definition doc_items : string := FlatDoc.print (FlatDoc.DArray ["b"]).

Definition node_root : NodeData :=
  mkNode "root" [mkRow (Some "name") (VStr "x") TString] (Some []).
Definition node_item : NodeData :=
  mkNode "0" [mkRow None (VStr "b") TString] (Some [SIdx 0]).

Definition store_of (doc : string) (selected : NodeData) : Store :=
  mkStore (Some doc) doc true (FlatDoc.parser doc) (Some selected).

Definition draft : ModalState := mkModal true "y" "#fff".

(** The flat projection claim in the terms of [defined_key_entries], on a row
    list [rows]. *)
Definition projection_claim (rows : list NodeRow) : Prop :=
  rows <> [] ->
  (forall r, rows = [r] -> key r <> None) ->
  normalizeNodeData (Some rows)
  = SerializeJSONObject (defined_key_entries rows).

(* ================================================================== *)
(** ** The rest of the component *)
(* ================================================================== *)

(** [toLowerCase], on the ASCII letters.  The bytes of the other characters
    are left as they are: the lower-case form of a character that is not
    ASCII is never made of the letters of [name] or [color] alone, so the two
    tests of the effect below come out as they do in JavaScript. *)
Definition toLowerCase_char (c : ascii) : ascii :=
  let n := N_of_ascii c in
  if (65 <=? n)%N && (n <=? 90)%N then ascii_of_N (n + 32) else c.

Fixpoint toLowerCase (s : string) : string :=
  match s with
  | EmptyString => EmptyString
  | String c r => String (toLowerCase_char c) (toLowerCase r)
  end.

(** [String(r.key)]: an absent key is printed as [null] (or as [undefined],
    which is no field name either). *)
Definition String_of_key (k : option string) : string :=
  match k with
  | Some s => s
  | None => "null"
  end.

(** The callback of the two [find] calls of the effect. *)
Definition key_is (field : string) (r : NodeRow) : bool :=
  toLowerCase (String_of_key (key r)) =? field.

(** [row && row.value != null ? String(row.value) : ""]. *)
Definition field_text (row : option NodeRow) : string :=
  match row with
  | Some r =>
      match value r with
      | VNull => EmptyString
      | v => ToString v
      end
  | None => EmptyString
  end.

Definition setNameValue (ui : ModalState) (v : string) : ModalState :=
  mkModal (editing ui) v (colorValue ui).

Definition setColorValue (ui : ModalState) (v : string) : ModalState :=
  mkModal (editing ui) (nameValue ui) v.

(** The body of the effect that runs when the selection or [opened]
    changes: the drafts are read from the rows of the selected node. *)
Definition initFields (nodeData : option NodeData) (ui : ModalState) : ModalState :=
  match nodeData with
  | None => ui
  | Some n =>
      let nameRow := find (key_is "name") (text n) in
      let colorRow := find (key_is "color") (text n) in
      setColorValue (setNameValue ui (field_text nameRow)) (field_text colorRow)
  end.

(** What can happen to the modal: a click on Edit, Save or Cancel, a change
    of one of the two inputs, a run of the effect. *)
Inductive Event : Type :=
| ClickEdit
| ClickSave
| ClickCancel
| ChangeName (v : string)
| ChangeColor (v : string)
| Effect.

(** The Edit button is rendered when the modal is not editing; Save, Cancel
    and the two inputs are rendered when it is. *)
Definition rendered (ui : ModalState) (e : Event) : bool :=
  match e with
  | ClickEdit => negb (editing ui)
  | ClickSave | ClickCancel | ChangeName _ | ChangeColor _ => editing ui
  | Effect => true
  end.

Section Component.

Variable modify : string -> JSONPath -> string -> FormattingOptions -> Result (list Edit).
Variable applyEdits : string -> list Edit -> Result string.
Variable parser : string -> list NodeData.

(** The handlers of the component. *)
Definition handle (e : Event) (w : Store * ModalState) : Store * ModalState :=
  match e with
  | ClickEdit => (fst w, setEditing (snd w) true)
  | ClickSave => onSave modify applyEdits parser w
  | ClickCancel => (fst w, setEditing (snd w) false)
  | ChangeName v => (fst w, setNameValue (snd w) v)
  | ChangeColor v => (fst w, setColorValue (snd w) v)
  | Effect => (fst w, initFields (selectedNode (fst w)) (snd w))
  end.

(** An event reaches its handler when its control is rendered. *)
Definition dispatch (w : Store * ModalState) (e : Event) : Store * ModalState :=
  if rendered (snd w) e then handle e w else w.

Definition run (es : list Event) (w : Store * ModalState) : Store * ModalState :=
  fold_left dispatch es w.

End Component.

Definition is_save (e : Event) : bool :=
  match e with ClickSave => true | _ => false end.

Definition is_click_edit_or_cancel (e : Event) : bool :=
  match e with ClickEdit | ClickCancel => true | _ => false end.

Section BestEffort.

Variable modify : string -> JSONPath -> string -> FormattingOptions -> Result (list Edit).
Variable applyEdits : string -> list Edit -> Result string.
Variable parser : string -> list NodeData.

(** Sections 4.3, 4.4 and 7 of the specification, in their own words: a
    field whose edit fails is abandoned, that field only, and the commit
    continues to the next field; then the text is published, with the edits
    that were applied, the selection is reconciled and the modal returns to
    viewing. *)
Definition try_field (updated : string) (basePath : JSONPath)
           (field newValue : string) : string :=
  match applyFieldEdit modify applyEdits updated basePath field newValue with
  | Ok patched => patched
  | Throw => updated
  end.

Definition onSave_best_effort (w : Store * ModalState) : Store * ModalState :=
  let (st, ui) := w in
  match selectedNode st with
  | None => w
  | Some nodeData =>
      let basePath := targetPath_of nodeData in
      let updated := try_field (json_or_empty st) basePath "name" (nameValue ui) in
      let updated := try_field updated basePath "color" (colorValue ui) in
      let st := setJson parser st updated in
      let st := setContents st updated false in
      let st := reconcile st nodeData in
      (st, setEditing ui false)
  end.

End BestEffort.

(** A text is valid for the flat patch applier when it parses. *)
Definition flat_valid (text : string) : bool :=
  match FlatDoc.parse text with
  | Some _ => true
  | None => false
  end.

(** The entries [normalizeNodeData] prints when it prints an object: the
    own properties, in enumeration order, of the object its loop builds. *)
Definition projected_entries (rows : list NodeRow) : list (string * JsValue) :=
  EnumerableOwnProperties (fold_left normalize_step rows empty_object).

(** Ascending order of array indices. *)
Definition index_le (a b : string * JsValue) : Prop :=
  (index_of (fst a) <= index_of (fst b))%N.

Definition index_lt (a b : string * JsValue) : Prop :=
  (index_of (fst a) < index_of (fst b))%N.

Definition has_key (k : string) (r : NodeRow) : bool :=
  match key r with
  | Some k' => k' =? k
  | None => false
  end.

(** The value of the last row the loop of [normalizeNodeData] assigns to
    the key [k], if there is one. *)
Fixpoint last_kept_value (k : string) (rows : list NodeRow) : option JsValue :=
  match rows with
  | [] => None
  | r :: rest =>
      match last_kept_value k rest with
      | Some v => Some v
      | None =>
          if kept r && has_key k r then Some (value r) else None
      end
  end.

(** The keys of a list, each at its first occurrence. *)
Definition add_key (acc : list string) (k : string) : list string :=
  if existsb (String.eqb k) acc then acc else acc ++ [k].

Definition first_occurrences (ks : list string) : list string :=
  fold_left add_key ks [].

(** A key that holds no double quote. *)
Fixpoint quote_free (s : string) : bool :=
  match s with
  | EmptyString => true
  | String c r => negb (c =? dquote)%char && quote_free r
  end.

Definition segment_quote_free (seg : Segment) : bool :=
  match seg with
  | SIdx _ => true
  | SKey s => quote_free s
  end.

(** The text before the first double quote, and the text after it. *)
Fixpoint read_until_quote (s : string) : string * string :=
  match s with
  | EmptyString => (EmptyString, EmptyString)
  | String c r =>
      if (c =? dquote)%char then (EmptyString, r)
      else (String c (fst (read_until_quote r)), snd (read_until_quote r))
  end.

(* ================================================================== *)
(** ** Strings *)
(* ================================================================== *)

Lemma append_assoc (a b c : string) : (a ++ b) ++ c = a ++ (b ++ c).
Proof. induction a as [|x a IH]; simpl; [reflexivity | now rewrite IH]. Qed.

Lemma append_nil_r (a : string) : a ++ EmptyString = a.
Proof. induction a as [|x a IH]; simpl; [reflexivity | now rewrite IH]. Qed.

Lemma length_append (a b : string) :
  String.length (a ++ b) = (String.length a + String.length b)%nat.
Proof. induction a as [|x a IH]; simpl; [reflexivity | now rewrite IH]. Qed.

(* ================================================================== *)
(** ** The row normalizer *)
(* ================================================================== *)

Section Normalizer.

Lemma step_container obj r :
  is_container r = true -> normalize_step obj r = obj.
Proof.
  unfold is_container, normalize_step. intros H.
  destruct (NodeType_eqb (type r) TArray), (NodeType_eqb (type r) TObject);
    simpl in *; try discriminate; reflexivity.
Qed.

Lemma step_not_kept obj r : kept r = false -> normalize_step obj r = obj.
Proof.
  unfold kept, is_container, normalize_step. intros H.
  destruct (NodeType_eqb (type r) TArray), (NodeType_eqb (type r) TObject);
    simpl in *; try reflexivity.
  rewrite H. reflexivity.
Qed.

Lemma step_kept obj r :
  kept r = true ->
  exists k, key r = Some k /\ k <> EmptyString
            /\ normalize_step obj r = Set_ obj k (value r).
Proof.
  unfold kept, is_container, normalize_step. intros H.
  destruct (NodeType_eqb (type r) TArray), (NodeType_eqb (type r) TObject);
    simpl in *; try discriminate.
  rewrite H. destruct (key r) as [k|] eqn:E; simpl in H; [|discriminate].
  exists k. repeat split; auto.
  intros ->. discriminate.
Qed.

Lemma fold_containers rows obj :
  (forall r, In r rows -> is_container r = true) ->
  fold_left normalize_step rows obj = obj.
Proof.
  revert obj. induction rows as [|r rows IH]; intros obj H; simpl.
  - reflexivity.
  - rewrite step_container by (apply H; now left).
    apply IH. intros r' Hr'. apply H. now right.
Qed.

Lemma has_own_false k l :
  ~ In k (map fst l) -> has_own k l = false.
Proof.
  unfold has_own. induction l as [|[k' v'] l IH]; simpl; intros H.
  - reflexivity.
  - destruct (String.eqb_spec k' k) as [->|_].
    + exfalso. apply H. now left.
    + simpl. apply IH. intros Hin. apply H. now right.
Qed.

Lemma Set_fresh acc k v :
  ~ In k (map fst acc) -> k <> "__proto__" ->
  Set_ (mkObject true acc) k v = mkObject true (acc ++ [(k, v)]).
Proof.
  intros Hk Hp. unfold Set_. simpl.
  rewrite (has_own_false _ _ Hk).
  destruct (String.eqb_spec k "__proto__") as [->|_]; [contradiction|].
  reflexivity.
Qed.

(** With distinct keys, none of them [__proto__], the loop appends the
    kept pairs in input order. *)
Lemma fold_kept_entries rows : forall acc,
  NoDup (map fst (acc ++ kept_entries rows)) ->
  (forall k, In k (map fst (kept_entries rows)) -> k <> "__proto__") ->
  fold_left normalize_step rows (mkObject true acc)
  = mkObject true (acc ++ kept_entries rows).
Proof.
  induction rows as [|r rows IH]; intros acc Hnd Hp; simpl.
  - now rewrite app_nil_r.
  - unfold kept_entries in *. simpl in Hnd, Hp.
    destruct (kept r) eqn:Hk.
    + destruct (step_kept (mkObject true acc) r Hk) as (k & Ek & _ & Es).
      rewrite Ek in *. simpl in Hnd, Hp. rewrite Es.
      rewrite Set_fresh.
      * rewrite IH.
        -- now rewrite <- app_assoc.
        -- now rewrite <- app_assoc.
        -- intros k' Hk'. apply Hp. now right.
      * rewrite map_app in Hnd. simpl in Hnd.
        apply NoDup_remove_2 in Hnd. intros Hin. apply Hnd.
        rewrite in_app_iff. now left.
      * apply Hp. now left.
    + rewrite step_not_kept by assumption. simpl in Hnd, Hp.
      now apply IH.
Qed.

Lemma filter_index_none (l : list (string * JsValue)) :
  (forall k, In k (map fst l) -> is_array_index k = false) ->
  filter (fun kv => is_array_index (fst kv)) l = []
  /\ filter (fun kv => negb (is_array_index (fst kv))) l = l.
Proof.
  induction l as [|[k v] l IH]; simpl; intros H.
  - split; reflexivity.
  - rewrite (H k) by now left. simpl.
    destruct IH as [IH1 IH2]; [intros; apply H; now right|].
    split; [assumption | now rewrite IH2].
Qed.

Lemma own_properties_no_index l b :
  (forall k, In k (map fst l) -> is_array_index k = false) ->
  EnumerableOwnProperties (mkObject b l) = l.
Proof.
  intros H. unfold EnumerableOwnProperties. simpl.
  destruct (filter_index_none l H) as [-> ->]. reflexivity.
Qed.

Lemma step_drop_blank obj r :
  normalize_step obj (drop_blank_key r) = normalize_step obj r.
Proof.
  unfold drop_blank_key, blank_key.
  destruct (key r) as [k|] eqn:E; [|reflexivity].
  destruct (String.eqb_spec k EmptyString) as [->|Hne]; [|reflexivity].
  unfold normalize_step. simpl. rewrite E. simpl. reflexivity.
Qed.

Lemma fold_drop_blank rows : forall obj,
  fold_left normalize_step (map drop_blank_key rows) obj
  = fold_left normalize_step rows obj.
Proof.
  induction rows as [|r rows IH]; intros obj; simpl.
  - reflexivity.
  - now rewrite step_drop_blank, IH.
Qed.

Lemma truthy_drop_blank r :
  truthy_key (key (drop_blank_key r)) = truthy_key (key r).
Proof.
  unfold drop_blank_key, blank_key.
  destruct (key r) as [k|] eqn:E; [|now rewrite E].
  destruct (String.eqb_spec k EmptyString) as [->|Hne]; simpl.
  - reflexivity.
  - rewrite E. reflexivity.
Qed.

Lemma value_drop_blank r : value (drop_blank_key r) = value r.
Proof. unfold drop_blank_key. now destruct (blank_key r). Qed.

Lemma step_blank obj r : blank_key r = true -> normalize_step obj r = obj.
Proof.
  intros H. apply step_not_kept. unfold kept, blank_key in *.
  destruct (key r) as [k|]; [|discriminate]. simpl. rewrite H.
  simpl. apply andb_false_r.
Qed.

Lemma fold_filter_blank rows : forall obj,
  fold_left normalize_step (filter (fun r => negb (blank_key r)) rows) obj
  = fold_left normalize_step rows obj.
Proof.
  induction rows as [|r rows IH]; intros obj; simpl.
  - reflexivity.
  - destruct (blank_key r) eqn:E; simpl.
    + now rewrite step_blank, IH.
    + apply IH.
Qed.

Lemma own_after_step obj r k :
  In k (map fst (own (normalize_step obj r))) ->
  In k (map fst (own obj)) \/ (key r = Some k /\ kept r = true).
Proof.
  destruct (kept r) eqn:Hk.
  - destruct (step_kept obj r Hk) as (k' & Ek & _ & ->).
    unfold Set_.
    destruct (has_own k' (own obj)) eqn:Ho; simpl.
    + intros H. left. clear Ho. revert H.
      induction (own obj) as [|[a b] l IH]; simpl; [tauto|].
      destruct (a =? k'); simpl; intros [H|H]; auto.
    + destruct ((k' =? "__proto__") && has_Object_prototype obj).
      * destruct (value r); simpl; auto.
      * simpl. rewrite map_app, in_app_iff. simpl.
        intros [H|[H|[]]]; [now left|]. right. now subst.
  - rewrite step_not_kept by assumption. now left.
Qed.

End Normalizer.

(** C9: normalize returns the literal [{}] for the empty row list, for an
    absent row list, and when no node is selected. *)
Theorem normalize_empty :
  normalizeNodeData (Some []) = "{}"
  /\ normalizeNodeData None = "{}"
  /\ contentCode None = "{}".
Proof. repeat split. Qed.

(** C6: a single row with an undefined key and value [v] normalizes to
    [String(v)], whatever its type, with no quoting added; the row
    [{key: undefined, value: 42, type: "number"}] normalizes to [42]. *)
Theorem normalize_single_keyless :
  (forall (v : JsValue) (t : NodeType),
      normalizeNodeData (Some [mkRow None v t]) = ToString v)
  /\ (forall (s : string) (t : NodeType),
      normalizeNodeData (Some [mkRow None (VStr s) t]) = s)
  /\ normalizeNodeData (Some [mkRow None (VNum 42) TNumber]) = "42".
Proof. repeat split. Qed.

(** C7, as stated, fails: a single keyless row of type object is a row list
    of containers only, and it normalizes to the string form of its value. *)
Lemma normalize_containers_counterexample :
  (forall r, In r [row_keyless_object] -> type r = TObject \/ type r = TArray)
  /\ normalizeNodeData (Some [row_keyless_object]) = "null"
  /\ normalizeNodeData (Some [row_keyless_object]) <> "{}".
Proof.
  split; [|split].
  - intros r [<-|[]]. now left.
  - reflexivity.
  - discriminate.
Qed.

(** C7, amended: if every row has type object or array, and the list is not
    a single row with an absent or empty key, normalize returns [{}]. *)
Theorem normalize_containers (rows : list NodeRow) :
  (forall r, In r rows -> type r = TObject \/ type r = TArray) ->
  (forall r, rows = [r] -> truthy_key (key r) = true) ->
  normalizeNodeData (Some rows) = "{}".
Proof.
  intros Hc Hs. unfold normalizeNodeData.
  destruct rows as [|row0 rest]; [reflexivity|].
  assert (Hg : (List.length (row0 :: rest) =? 1)%nat
               && negb (truthy_key (key row0)) = false).
  { destruct rest; simpl; [|reflexivity].
    now rewrite (Hs row0 eq_refl). }
  rewrite Hg, fold_containers; [reflexivity|].
  intros r Hr. unfold is_container.
  destruct (Hc r Hr) as [-> | ->]; reflexivity.
Qed.

(** Two container rows, one of them keyless. *)
Lemma normalize_containers_witness :
  normalizeNodeData (Some [row_items; row_keyless_object]) = "{}".
Proof.
  apply normalize_containers.
  - intros r [<-|[<-|[]]]; [now right | now left].
  - intros r H. discriminate H.
Defined.

(** C10: an empty-string key is treated as an absent key.  A single row whose
    key is the empty string is rendered as [String(value)]; replacing every
    empty key by an absent one never changes the result; and in a list of two
    or more rows the rows with an empty key contribute nothing, so that the
    object printed has no property named by the empty string. *)
Theorem normalize_blank_key :
  (forall (v : JsValue) (t : NodeType),
      normalizeNodeData (Some [mkRow (Some EmptyString) v t]) = ToString v)
  /\ (forall rows : list NodeRow,
      normalizeNodeData (Some (map drop_blank_key rows))
      = normalizeNodeData (Some rows))
  /\ (forall (r1 r2 : NodeRow) (rest : list NodeRow),
      normalizeNodeData (Some (r1 :: r2 :: rest))
      = JSON_stringify_object
          (fold_left normalize_step
                     (filter (fun r => negb (blank_key r)) (r1 :: r2 :: rest))
                     empty_object))
  /\ (forall rows : list NodeRow,
      ~ In EmptyString
           (map fst (own (fold_left normalize_step rows empty_object)))).
Proof.
  split; [|split; [|split]].
  - reflexivity.
  - intros rows. unfold normalizeNodeData.
    destruct rows as [|row0 rest]; [reflexivity|].
    cbn [map]. rewrite <- (fold_drop_blank (row0 :: rest)). cbn [map].
    rewrite truthy_drop_blank, value_drop_blank. cbn [List.length].
    rewrite length_map. reflexivity.
  - intros r1 r2 rest. rewrite fold_filter_blank. reflexivity.
  - intros rows.
    assert (G : forall obj,
               ~ In EmptyString (map fst (own obj)) ->
               ~ In EmptyString
                    (map fst (own (fold_left normalize_step rows obj)))).
    { induction rows as [|r rows IH]; intros obj Ho; simpl; [assumption|].
      apply IH. intros Hin.
      destruct (own_after_step obj r _ Hin) as [H|[Hk Hkept]]; [now apply Ho|].
      destruct (step_kept obj r Hkept) as (k & Ek & Hne & _).
      congruence. }
    apply G. simpl. tauto.
Qed.

(** C5, as stated, fails in four ways.  A row whose key is the empty string
    has a defined key and is dropped all the same (alone, it is printed as a
    bare scalar); of two rows with the same key only one entry is printed,
    with the later value; a key that is an array index is printed before the
    keys that are not, whatever the input order; and assigning a number to
    [__proto__] creates no property. *)
Lemma normalize_projection_counterexample :
  ~ projection_claim [row_blank]
  /\ ~ projection_claim [row_a1; row_blank]
  /\ ~ projection_claim [row_a1; row_a2]
  /\ ~ projection_claim [row_b; row_1]
  /\ ~ projection_claim [row_a1; row_proto].
Proof.
  unfold projection_claim.
  repeat split; intros H;
    (assert (E : normalizeNodeData (Some _) = _)
      by (apply H; [discriminate | intros r Hr; inversion Hr; discriminate]));
    vm_compute in E; discriminate E.
Qed.

(** C5, amended: for a row list that is neither empty nor a single row with
    an absent or empty key, if the rows that are no container and have a
    non-empty key carry pairwise distinct keys, none of which is an array
    index or [__proto__], then normalize returns the 2-space pretty-printed
    object literal whose entries are exactly the (key, value) pairs of those
    rows, in input order. *)
Theorem normalize_projection (rows : list NodeRow) :
  rows <> [] ->
  (forall r, rows = [r] -> truthy_key (key r) = true) ->
  NoDup (map fst (kept_entries rows)) ->
  (forall k, In k (map fst (kept_entries rows)) ->
             is_array_index k = false /\ k <> "__proto__") ->
  normalizeNodeData (Some rows) = SerializeJSONObject (kept_entries rows).
Proof.
  intros Hne Hs Hnd Hk. unfold normalizeNodeData.
  destruct rows as [|row0 rest]; [contradiction|].
  assert (Hg : (List.length (row0 :: rest) =? 1)%nat
               && negb (truthy_key (key row0)) = false).
  { destruct rest; simpl; [|reflexivity].
    now rewrite (Hs row0 eq_refl). }
  rewrite Hg. unfold JSON_stringify_object, empty_object.
  rewrite (fold_kept_entries (row0 :: rest) []).
  - simpl app. rewrite own_properties_no_index; [reflexivity|].
    intros k Hin. now apply Hk.
  - exact Hnd.
  - intros k Hin. now apply Hk.
Qed.

(** Two scalar rows around a container row. *)
Lemma normalize_projection_witness :
  normalizeNodeData (Some [row_a1; row_items; row_b])
  = SerializeJSONObject [("a", VNum 1); ("b", VStr "x")].
Proof.
  apply (normalize_projection [row_a1; row_items; row_b]).
  - discriminate.
  - intros r H. discriminate H.
  - repeat constructor; simpl; intuition discriminate.
  - simpl. intros k [<-|[<-|[]]]; split; (reflexivity || discriminate).
Defined.

(** The projection of two scalar rows and a container row, as printed. *)
Example normalize_rows_printed :
  normalizeNodeData (Some [row_a1; row_items; row_b])
  = "{" ++ str1 newline
    ++ "  " ++ str1 dquote ++ "a" ++ str1 dquote ++ ": 1," ++ str1 newline
    ++ "  " ++ str1 dquote ++ "b" ++ str1 dquote ++ ": "
    ++ str1 dquote ++ "x" ++ str1 dquote ++ str1 newline
    ++ "}".
Proof. reflexivity. Qed.

(* ================================================================== *)
(** ** The path formatter *)
(* ================================================================== *)

(** The format the source comment gives, and a path through an array. *)
Example jsonPathToString_customer :
  jsonPathToString (Some [SKey "customer"])
  = "$[" ++ str1 dquote ++ "customer" ++ str1 dquote ++ "]"
  /\ jsonPathToString (Some [SKey "orders"; SIdx 0; SKey "id"])
     = "$[" ++ str1 dquote ++ "orders" ++ str1 dquote ++ "][0]["
       ++ str1 dquote ++ "id" ++ str1 dquote ++ "]".
Proof. split; reflexivity. Qed.

Lemma bracketed_segment (seg : Segment) :
  bracketed seg = "[" ++ ToString (path_segment seg) ++ "]".
Proof. destruct seg; reflexivity. Qed.

Lemma join_brackets (x : string) (l : list string) :
  "[" ++ String.concat "][" (x :: l) ++ "]"
  = String.concat EmptyString (map (fun s => "[" ++ s ++ "]") (x :: l)).
Proof.
  revert x. induction l as [|y l IH]; intros x.
  - reflexivity.
  - change (String.concat "][" (x :: y :: l))
      with (x ++ "][" ++ String.concat "][" (y :: l)).
    change (String.concat EmptyString
              (map (fun s => "[" ++ s ++ "]") (x :: y :: l)))
      with (("[" ++ x ++ "]")
            ++ String.concat EmptyString
                 (map (fun s => "[" ++ s ++ "]") (y :: l))).
    rewrite <- IH. simpl. f_equal.
    rewrite !append_assoc. reflexivity.
Qed.

(** C8: the path formatter returns [$] for an undefined path, for the empty
    path and when no node is selected; for every path it returns [$]
    followed by one bracketed segment per path segment, in order, an integer
    segment bare and a string segment between double quotes. *)
Theorem jsonPathToString_format :
  jsonPathToString None = "$"
  /\ jsonPathToString (Some []) = "$"
  /\ pathCode None = "$"
  /\ (forall p : JSONPath,
        jsonPathToString (Some p)
        = "$" ++ String.concat EmptyString (map bracketed p)
        /\ List.length (map bracketed p) = List.length p)
  /\ (forall n : N, bracketed (SIdx n) = "[" ++ Number_toString (Z.of_N n) ++ "]")
  /\ (forall s : string,
        bracketed (SKey s) = "[" ++ str1 dquote ++ s ++ str1 dquote ++ "]").
Proof.
  split; [reflexivity|]. split; [reflexivity|]. split; [reflexivity|].
  split; [|split]; [intros p; split| reflexivity |].
  3:{ intros s. unfold bracketed. cbn [append str1].
      now rewrite append_assoc. }
  - destruct p as [|seg p]; [reflexivity|].
    unfold jsonPathToString, Array_join. cbn [List.length Nat.eqb].
    rewrite map_map.
    transitivity ("$" ++ "[" ++ String.concat "]["
                    (map (fun x => ToString (path_segment x)) (seg :: p)) ++ "]");
      [reflexivity|].
    cbn [map]. rewrite join_brackets.
    apply (f_equal (fun l => "$" ++ String.concat EmptyString l)).
    cbn [map]. rewrite map_map, bracketed_segment.
    apply (f_equal (cons _)), map_ext. intros a.
    symmetry. apply bracketed_segment.
  - apply length_map.
Qed.

(* ================================================================== *)
(** ** Stringified paths *)
(* ================================================================== *)

Section PathStrings.

Lemma read_chars_escape_char (c : ascii) (tail : string) :
  read_chars (escape_char c ++ tail) = push c (read_chars tail).
Proof. destruct c as [[] [] [] [] [] [] [] []]; reflexivity. Qed.

Lemma read_chars_escape (s rest : string) :
  read_chars (escape s ++ String dquote rest) = Some (s, rest).
Proof.
  induction s as [|c s IH]; [reflexivity|].
  cbn [escape]. rewrite append_assoc, read_chars_escape_char, IH.
  reflexivity.
Qed.

(** A quoted string can be read back, whatever follows it. *)
Lemma read_string_quote (s rest : string) :
  read_string (QuoteJSONString s ++ rest) = Some (s, rest).
Proof.
  unfold QuoteJSONString. cbn [append read_string].
  rewrite append_assoc. cbn [str1 append].
  change ((dquote =? dquote)%char) with true. cbv iota.
  apply read_chars_escape.
Qed.

Lemma read_digits_stop (s : string) :
  starts_with_digit s = false -> read_digits s = (EmptyString, s).
Proof.
  destruct s as [|c r]; simpl; [reflexivity|].
  intros ->. reflexivity.
Qed.

Lemma read_digits_uint (d : Decimal.uint) (rest : string) :
  starts_with_digit rest = false ->
  read_digits (NilEmpty.string_of_uint d ++ rest)
  = (NilEmpty.string_of_uint d, rest).
Proof.
  intros H. induction d; cbn [NilEmpty.string_of_uint append];
    try (cbn [read_digits]; rewrite IHd; reflexivity).
  now apply read_digits_stop.
Qed.

Lemma string_of_uint_inj (d d' : Decimal.uint) :
  NilEmpty.string_of_uint d = NilEmpty.string_of_uint d' -> d = d'.
Proof.
  intros H. apply (f_equal NilEmpty.uint_of_string) in H.
  rewrite !NilEmpty.usu in H. now injection H.
Qed.

Lemma Number_toString_of_N (n : N) :
  Number_toString (Z.of_N n) = NilEmpty.string_of_uint (N.to_uint n).
Proof. destruct n; reflexivity. Qed.

Lemma Number_toString_of_N_inj (n m : N) :
  Number_toString (Z.of_N n) = Number_toString (Z.of_N m) -> n = m.
Proof.
  rewrite !Number_toString_of_N. intros H.
  now apply DecimalN.Unsigned.to_uint_inj, string_of_uint_inj.
Qed.

Lemma string_of_uint_head (d : Decimal.uint) :
  d <> Decimal.Nil ->
  exists c r, NilEmpty.string_of_uint d = String c r /\ is_digit c = true.
Proof.
  destruct d; intros H; [contradiction| ..];
    cbn [NilEmpty.string_of_uint]; eexists; eexists; split; reflexivity.
Qed.

Lemma to_uint_nonnil (n : N) : N.to_uint n <> Decimal.Nil.
Proof.
  destruct n as [|p]; [discriminate|]. apply DecimalPos.Unsigned.to_uint_nonnil.
Qed.

(** A serialized segment starts with a digit or with a double quote. *)
Lemma segment_head (seg : Segment) :
  exists c r, SerializeJSONSegment seg = String c r
              /\ (is_digit c = true \/ c = dquote).
Proof.
  destruct seg as [n|s]; cbn [SerializeJSONSegment].
  - rewrite Number_toString_of_N.
    destruct (string_of_uint_head _ (to_uint_nonnil n)) as (c & r & E & Hc).
    exists c, r. auto.
  - unfold QuoteJSONString. eexists; eexists; split; [reflexivity|now right].
Qed.

(** A serialized segment is determined by any text it starts, provided
    no digit follows it. *)
Lemma segment_prefix (a b : Segment) (t1 t2 : string) :
  starts_with_digit t1 = false -> starts_with_digit t2 = false ->
  SerializeJSONSegment a ++ t1 = SerializeJSONSegment b ++ t2 ->
  a = b /\ t1 = t2.
Proof.
  intros H1 H2 E.
  destruct a as [n|s], b as [m|t]; cbn [SerializeJSONSegment] in E.
  - rewrite !Number_toString_of_N in E.
    apply (f_equal read_digits) in E.
    rewrite !read_digits_uint in E by assumption.
    injection E as E1 E2. split; [|assumption].
    f_equal. now apply DecimalN.Unsigned.to_uint_inj, string_of_uint_inj.
  - exfalso. rewrite Number_toString_of_N in E.
    destruct (string_of_uint_head _ (to_uint_nonnil n)) as (c & r & Ec & Hc).
    rewrite Ec in E. unfold QuoteJSONString in E. cbn [append] in E.
    injection E as E _. subst c. discriminate Hc.
  - exfalso. rewrite Number_toString_of_N in E.
    destruct (string_of_uint_head _ (to_uint_nonnil m)) as (c & r & Ec & Hc).
    rewrite Ec in E. unfold QuoteJSONString in E. cbn [append] in E.
    injection E as E _. subst c. discriminate Hc.
  - apply (f_equal read_string) in E.
    rewrite !read_string_quote in E. injection E as E1 E2.
    split; [now f_equal | assumption].
Qed.

Lemma concat_cons (sep x : string) (l : list string) :
  String.concat sep (x :: l)
  = x ++ match l with
         | [] => EmptyString
         | _ :: _ => sep ++ String.concat sep l
         end.
Proof. destruct l; cbn [String.concat]; [now rewrite append_nil_r | reflexivity]. Qed.

Lemma elements_inj (p q : JSONPath) :
  String.concat "," (map SerializeJSONSegment p) ++ "]"
  = String.concat "," (map SerializeJSONSegment q) ++ "]" ->
  p = q.
Proof.
  revert q. induction p as [|a p IH]; intros [|b q] E.
  - reflexivity.
  - exfalso. cbn [map] in E. rewrite concat_cons, append_assoc in E.
    destruct (segment_head b) as (c & r & Ec & Hc). rewrite Ec in E.
    cbn in E. injection E as E _. subst c.
    destruct Hc as [Hc|Hc]; discriminate Hc.
  - exfalso. cbn [map] in E. rewrite concat_cons, append_assoc in E.
    destruct (segment_head a) as (c & r & Ec & Hc). rewrite Ec in E.
    cbn in E. injection E as E _. subst c.
    destruct Hc as [Hc|Hc]; discriminate Hc.
  - cbn [map] in E. rewrite !concat_cons, !append_assoc in E.
    apply segment_prefix in E.
    + destruct E as [-> E]. f_equal. apply IH.
      destruct p as [|a' p], q as [|b' q]; cbn [map] in E |- *.
      * reflexivity.
      * discriminate E.
      * discriminate E.
      * cbn [append] in E. now injection E.
    + destruct (map SerializeJSONSegment p); reflexivity.
    + destruct (map SerializeJSONSegment q); reflexivity.
Qed.

(** [JSON.stringify] is injective on paths. *)
Lemma JSON_stringify_path_inj (p q : JSONPath) :
  JSON_stringify_path (Some p) = JSON_stringify_path (Some q) -> p = q.
Proof.
  unfold JSON_stringify_path. intros E. injection E as E.
  now apply elements_inj.
Qed.

Lemma Segment_eqb_eq (a b : Segment) : Segment_eqb a b = true <-> a = b.
Proof.
  destruct a as [n|s], b as [m|t]; simpl;
    try (split; [discriminate | discriminate]).
  - rewrite N.eqb_eq. split; [now intros -> | now injection 1].
  - rewrite String.eqb_eq. split; [now intros -> | now injection 1].
Qed.

Lemma JSONPath_eqb_eq (p q : JSONPath) : JSONPath_eqb p q = true <-> p = q.
Proof.
  revert q. induction p as [|a p IH]; intros [|b q]; simpl;
    try (split; [reflexivity || discriminate | reflexivity || discriminate]).
  rewrite andb_true_iff, Segment_eqb_eq, IH.
  split; [now intros [-> ->] | now injection 1].
Qed.

Lemma stringified_equal (p q : JSONPath) :
  strict_equal (JSON_stringify_path (Some p)) (JSON_stringify_path (Some q))
  = JSONPath_eqb p q.
Proof.
  destruct (JSONPath_eqb p q) eqn:E.
  - apply JSONPath_eqb_eq in E. subst q. simpl. apply String.eqb_refl.
  - destruct (strict_equal _ _) eqn:E'; [|reflexivity].
    cbn [JSON_stringify_path strict_equal] in E'.
    apply String.eqb_eq in E'.
    assert (p = q) as -> by (apply JSON_stringify_path_inj; simpl; now f_equal).
    rewrite (proj2 (JSONPath_eqb_eq q q) eq_refl) in E. discriminate E.
Qed.

Lemma path_matches_equals (targetPath : JSONPath) (n : NodeData) :
  path_matches targetPath n = path_equals targetPath n.
Proof.
  unfold path_matches, path_equals.
  destruct (path n) as [p|]; [apply stringified_equal | reflexivity].
Qed.

Lemma path_matches_iff (targetPath : JSONPath) (n : NodeData) :
  path_matches targetPath n = true <-> path n = Some targetPath.
Proof.
  rewrite path_matches_equals. unfold path_equals.
  destruct (path n) as [p|].
  - rewrite JSONPath_eqb_eq. split; [now intros -> | now injection 1].
  - split; discriminate.
Qed.

Lemma find_path_matches (targetPath : JSONPath) (l : list NodeData) :
  find (path_matches targetPath) l = find (path_equals targetPath) l.
Proof.
  induction l as [|n l IH]; simpl; [reflexivity|].
  now rewrite path_matches_equals, IH.
Qed.

End PathStrings.

(** The index 1 and the key made of the digit 1 are told apart. *)
Example index_and_key_differ :
  JSON_stringify_path (Some [SIdx 1]) <> JSON_stringify_path (Some [SKey "1"])
  /\ path_matches [SIdx 1] (mkNode "n" [] (Some [SKey "1"])) = false
  /\ path_matches [SIdx 1] (mkNode "n" [] (Some [SIdx 1])) = true
  /\ path_matches [] (mkNode "n" [] None) = false.
Proof. repeat split; discriminate. Qed.

(** C3: the comparison of stringified paths is structural equality.  For all
    paths of strings and non-negative integers the stringified forms are
    equal exactly when the paths agree segment by segment, in kind and in
    value; a node matches exactly when its path is the target path; and the
    reconciliation block is the reselection of section 4.4 under structural
    equality: it selects the first node whose path equals the target path,
    and leaves the store alone when there is none. *)
Theorem reconcile_structural_equality :
  (forall p q : JSONPath,
      strict_equal (JSON_stringify_path (Some p)) (JSON_stringify_path (Some q))
      = JSONPath_eqb p q)
  /\ (forall p q : JSONPath, JSONPath_eqb p q = true <-> p = q)
  /\ (forall (targetPath : JSONPath) (n : NodeData),
        path_matches targetPath n = true <-> path n = Some targetPath)
  /\ (forall (st : Store) (nodeData : NodeData),
        reconcile st nodeData = reselect st (targetPath_of nodeData))
  /\ (forall (st : Store) (nodeData matched : NodeData),
        find (path_matches (targetPath_of nodeData)) (nodes st) = Some matched ->
        reconcile st nodeData = setSelectedNode st matched
        /\ In matched (nodes st)
        /\ path matched = Some (targetPath_of nodeData)).
Proof.
  split; [exact stringified_equal|].
  split; [exact JSONPath_eqb_eq|].
  split; [exact path_matches_iff|].
  split.
  - intros st nodeData. unfold reconcile, reselect.
    now rewrite find_path_matches.
  - intros st nodeData matched H. unfold reconcile. rewrite H.
    apply find_some in H. destruct H as [Hin Hm].
    repeat split; [assumption|]. now apply path_matches_iff.
Qed.

(* ================================================================== *)
(** ** The flat patch applier meets the applier's contract *)
(* ================================================================== *)

Module FlatDocFacts.
Import FlatDoc.

Lemma substring_none (n : nat) (s : string) : substring n 0 s = EmptyString.
Proof.
  revert s. induction n as [|n IH]; intros [|c s]; simpl; auto.
Qed.

Lemma applyEdits_whole (t c : string) :
  applyEdits t [mkEdit 0 (String.length t) c] = Ok c.
Proof.
  unfold applyEdits. cbn [rev app applyEdits_from edit_offset edit_length].
  cbn [Nat.add]. rewrite Nat.leb_refl. unfold applyEdit.
  cbn [edit_offset edit_length edit_content Nat.add].
  rewrite Nat.sub_diag, !substring_none, append_nil_r. reflexivity.
Qed.

Lemma members_length (ms : list (string * string)) :
  (List.length ms
   < String.length (String.concat "," (map print_member ms) ++ "}"))%nat.
Proof.
  induction ms as [|m ms IH]; [simpl; lia|].
  cbn [map]. rewrite concat_cons, append_assoc, length_append.
  assert (1 <= String.length (print_member m))%nat
    by (unfold print_member, QuoteJSONString; simpl; lia).
  destruct ms as [|m' ms].
  - simpl. lia.
  - cbn [map List.length] in *.
    change (String.length (("," ++ ?x) ++ "}"))
      with (S (String.length (x ++ "}"))).
    lia.
Qed.

Lemma members_roundtrip (ms : list (string * string)) :
  forall (m : string * string) (fuel : nat),
    (List.length ms < fuel)%nat ->
    parse_members fuel (String.concat "," (map print_member (m :: ms)) ++ "}")
    = Some (m :: ms).
Proof.
  induction ms as [|m' ms IH]; intros [k v] fuel Hf;
    (destruct fuel as [|fuel]; [lia|]);
    cbn [map]; rewrite concat_cons, append_assoc;
    unfold print_member at 1; cbn [fst snd];
    rewrite !append_assoc; cbn [parse_members];
    rewrite read_string_quote; cbn [append];
    change ((":" =? ":")%char) with true; cbv iota;
    rewrite read_string_quote.
  - reflexivity.
  - cbn [append].
    change (("," =? "}")%char) with false.
    change (("," =? ",")%char) with true. cbv iota.
    cbn [map] in IH. rewrite IH by (simpl in Hf; lia). reflexivity.
Qed.

(** Printing an object document and parsing it back gives the document. *)
Lemma parse_print_object (ms : list (string * string)) :
  parse (print (DObject ms)) = Some (DObject ms).
Proof.
  destruct ms as [|[k v] ms]; [reflexivity|].
  unfold print.
  remember (String.concat "," (map print_member ((k, v) :: ms)) ++ "}") as r eqn:Er.
  assert (Hm : parse_members (String.length r) r = Some ((k, v) :: ms)).
  { subst r. apply members_roundtrip. apply Nat.lt_trans with (S (List.length ms)).
    - lia.
    - apply (members_length ((k, v) :: ms)). }
  assert (Hr : exists c x y, r = String c (String x y)).
  { subst r. cbn [map]. rewrite concat_cons, append_assoc.
    unfold print_member at 1, QuoteJSONString. cbn [fst snd append].
    destruct (escape k) as [|e es]; cbn [append];
      do 3 eexists; reflexivity. }
  destruct Hr as (c & x & y & Hr).
  cbn [append parse]. change (("{" =? "{")%char) with true. cbv iota.
  rewrite Hr in *. rewrite Hm. reflexivity.
Qed.

Lemma lookup_set_same (f v : string) (ms : list (string * string)) :
  lookup f (set_member f v ms) = Some v.
Proof.
  induction ms as [|[k v'] ms IH]; simpl.
  - now rewrite String.eqb_refl.
  - destruct (k =? f) eqn:E; simpl; rewrite E; auto.
Qed.

Lemma lookup_set_other (f g v : string) (ms : list (string * string)) :
  f <> g -> lookup g (set_member f v ms) = lookup g ms.
Proof.
  intros Hne. induction ms as [|[k v'] ms IH]; simpl.
  - destruct (String.eqb_spec f g); [contradiction | reflexivity].
  - destruct (String.eqb_spec k f) as [->|Hk]; simpl.
    + destruct (String.eqb_spec f g); [contradiction | reflexivity].
    + now rewrite IH.
Qed.

(** A field edit succeeds exactly on the root of an object document. *)
Lemma field_edit_inv (t : string) (p : JSONPath) (f v t' : string) :
  applyFieldEdit modify applyEdits t p f v = Ok t' ->
  exists ms, p = [] /\ parse t = Some (DObject ms)
             /\ t' = print (DObject (set_member f v ms)).
Proof.
  unfold applyFieldEdit, bind, modify.
  destruct (parse t) as [[ms|vs]|]; try discriminate.
  destruct p as [|a [|b p]]; cbn [app]; try (destruct a; discriminate).
  rewrite applyEdits_whole. intros E. injection E as <-.
  exists ms. auto.
Qed.

Lemma field_edit_applies (t : string) (p : JSONPath) (f v : string) :
  objectAt t p = true ->
  exists t', applyFieldEdit modify applyEdits t p f v = Ok t'
             /\ objectAt t' p = true.
Proof.
  unfold objectAt, applyFieldEdit, bind, modify.
  destruct (parse t) as [[ms|vs]|]; try discriminate.
  destruct p as [|a p]; [intros _ | discriminate].
  cbn [app]. rewrite applyEdits_whole. eexists. split; [reflexivity|].
  now rewrite parse_print_object.
Qed.

Lemma field_edit_sets (t : string) (p : JSONPath) (f v t' : string) :
  applyFieldEdit modify applyEdits t p f v = Ok t' ->
  valueAt t' (p ++ [SKey f])%list = Some (VStr v).
Proof.
  intros H. destruct (field_edit_inv _ _ _ _ _ H) as (ms & -> & _ & ->).
  unfold valueAt. rewrite parse_print_object. cbn [app].
  now rewrite lookup_set_same.
Qed.

Lemma field_edit_frames (t : string) (p : JSONPath) (f g v t' : string) :
  f <> g ->
  applyFieldEdit modify applyEdits t p f v = Ok t' ->
  valueAt t' (p ++ [SKey g])%list = valueAt t (p ++ [SKey g])%list.
Proof.
  intros Hne H. destruct (field_edit_inv _ _ _ _ _ H) as (ms & -> & Hp & ->).
  unfold valueAt. rewrite parse_print_object, Hp. cbn [app].
  now rewrite lookup_set_other.
Qed.

End FlatDocFacts.

(* ================================================================== *)
(** ** Commit and reconciliation *)
(* ================================================================== *)

Section Commit.

Variable modify : string -> JSONPath -> string -> FormattingOptions -> Result (list Edit).
Variable applyEdits : string -> list Edit -> Result string.
Variable parser : string -> list NodeData.

Local Abbreviation applyField := (applyFieldEdit modify applyEdits).
Local Abbreviation save := (onSave modify applyEdits parser).

Lemma nodes_reconcile (st : Store) (nodeData : NodeData) :
  nodes (reconcile st nodeData) = nodes st.
Proof. unfold reconcile. now destruct (find _ _). Qed.

Lemma json_reconcile (st : Store) (nodeData : NodeData) :
  json (reconcile st nodeData) = json st.
Proof. unfold reconcile. now destruct (find _ _). Qed.

Lemma reconcile_miss (st : Store) (nodeData : NodeData) :
  (forall n, In n (nodes st) -> path n <> Some (targetPath_of nodeData)) ->
  reconcile st nodeData = st.
Proof.
  intros H. unfold reconcile.
  destruct (find _ _) as [m|] eqn:E; [|reflexivity].
  apply find_some in E. destruct E as [Hin Hm].
  apply path_matches_iff in Hm. now apply H in Hin.
Qed.

(** The three ways the body of the [try] can go. *)
Lemma commit_ok (st : Store) (ui : ModalState) (nodeData : NodeData)
      (t1 t2 : string) :
  applyField (json_or_empty st) (targetPath_of nodeData) "name" (nameValue ui)
  = Ok t1 ->
  applyField t1 (targetPath_of nodeData) "color" (colorValue ui) = Ok t2 ->
  commit modify applyEdits parser st ui nodeData
  = Ok (reconcile (setContents (setJson parser st t2) t2 false) nodeData).
Proof.
  intros H1 H2. unfold commit. rewrite H1. cbn [bind]. rewrite H2.
  reflexivity.
Qed.

Lemma commit_name_throws (st : Store) (ui : ModalState) (nodeData : NodeData) :
  applyField (json_or_empty st) (targetPath_of nodeData) "name" (nameValue ui)
  = Throw ->
  commit modify applyEdits parser st ui nodeData = Throw.
Proof.
  intros H1. unfold commit. rewrite H1. reflexivity.
Qed.

Lemma commit_color_throws (st : Store) (ui : ModalState) (nodeData : NodeData)
      (t1 : string) :
  applyField (json_or_empty st) (targetPath_of nodeData) "name" (nameValue ui)
  = Ok t1 ->
  applyField t1 (targetPath_of nodeData) "color" (colorValue ui) = Throw ->
  commit modify applyEdits parser st ui nodeData = Throw.
Proof.
  intros H1 H2. unfold commit. rewrite H1. cbn [bind]. rewrite H2.
  reflexivity.
Qed.

Lemma commit_cases (st : Store) (ui : ModalState) (nodeData : NodeData) :
  (commit modify applyEdits parser st ui nodeData = Throw)
  \/ (exists t1 t2,
        applyField (json_or_empty st) (targetPath_of nodeData) "name"
                   (nameValue ui) = Ok t1
        /\ applyField t1 (targetPath_of nodeData) "color" (colorValue ui)
           = Ok t2
        /\ commit modify applyEdits parser st ui nodeData
           = Ok (reconcile (setContents (setJson parser st t2) t2 false)
                           nodeData)).
Proof.
  destruct (applyField (json_or_empty st) (targetPath_of nodeData) "name"
                       (nameValue ui)) as [t1|] eqn:H1.
  - destruct (applyField t1 (targetPath_of nodeData) "color" (colorValue ui))
      as [t2|] eqn:H2.
    + right. exists t1, t2.
      split; [reflexivity|]. split; [exact H2|].
      now apply (commit_ok st ui nodeData t1 t2).
    + left. eauto using commit_color_throws.
  - left. auto using commit_name_throws.
Qed.

Section Contract.

(** Re-parsing a text: whether a path leads to an object, and the value at
    a path.  The three laws of a patch applier: a field of an object can be
    edited, and the object is still there; an edit that succeeds sets its
    field; and it leaves the other fields of the same node as they were. *)
Variable objectAt : string -> JSONPath -> bool.
Variable valueAt : string -> JSONPath -> option JsValue.
Hypothesis edit_applies : forall t p f v,
    objectAt t p = true ->
    exists t', applyField t p f v = Ok t' /\ objectAt t' p = true.
Hypothesis edit_sets : forall t p f v t',
    applyField t p f v = Ok t' ->
    valueAt t' (p ++ [SKey f])%list = Some (VStr v).
Hypothesis edit_frames : forall t p f g v t',
    f <> g ->
    applyField t p f v = Ok t' ->
    valueAt t' (p ++ [SKey g])%list = valueAt t (p ++ [SKey g])%list.

(** C1, amended: on commit, for every document text and base path that
    resolves to an object in it, and string drafts, the two field edits are
    applied in sequence on the evolving text: the name edit is computed on
    the current document text and gives [t1], the color edit is computed on
    [t1], which already contains the name edit, and gives [t2], the text
    published is [t2], and re-parsing it shows both new values. *)
Theorem commit_sequences_edits (st : Store) (ui : ModalState)
        (nodeData : NodeData) :
  selectedNode st = Some nodeData ->
  objectAt (json_or_empty st) (targetPath_of nodeData) = true ->
  exists t1 t2,
    applyField (json_or_empty st) (targetPath_of nodeData) "name"
               (nameValue ui) = Ok t1
    /\ applyField t1 (targetPath_of nodeData) "color" (colorValue ui) = Ok t2
    /\ json (fst (save (st, ui))) = Some t2
    /\ valueAt t2 (targetPath_of nodeData ++ [SKey "name"])%list
       = Some (VStr (nameValue ui))
    /\ valueAt t2 (targetPath_of nodeData ++ [SKey "color"])%list
       = Some (VStr (colorValue ui)).
Proof.
  intros Hsel Hobj.
  destruct (edit_applies _ _ "name" (nameValue ui) Hobj) as (t1 & H1 & Hobj1).
  destruct (edit_applies _ _ "color" (colorValue ui) Hobj1) as (t2 & H2 & _).
  exists t1, t2. split; [exact H1|]. split; [exact H2|]. split; [|split].
  - unfold onSave. rewrite Hsel, (commit_ok _ _ _ _ _ H1 H2).
    cbn [fst]. now rewrite json_reconcile.
  - assert (Hne : "color" <> "name") by discriminate.
    rewrite (edit_frames _ _ _ _ _ _ Hne H2).
    exact (edit_sets _ _ _ _ _ H1).
  - exact (edit_sets _ _ _ _ _ H2).
Qed.

End Contract.

Section Validity.

(** Syntactic validity of a text, with the law of a patch applier: an edit
    that succeeds on a valid document gives a valid document. *)
Variable valid : string -> bool.
Hypothesis edit_valid : forall t p f v t',
    valid t = true -> applyField t p f v = Ok t' -> valid t' = true.

(** C2, amended: when a field's edit throws during a commit, the whole
    commit is abandoned, not that field alone: the next field is not
    edited, nothing is published, the stores stay as they were (an edit
    already applied to the working text is dropped with it), and the modal
    leaves the editing state.  The text of the document after Save is the
    text before it or the text with both edits, never a text with one of
    them; and, for a patch applier that turns valid documents into valid
    documents, a valid document is still valid after Save: no corrupt or
    partial text is published. *)
Theorem commit_failure_aborts (st : Store) (ui : ModalState)
        (nodeData : NodeData) :
  selectedNode st = Some nodeData ->
  ((applyField (json_or_empty st) (targetPath_of nodeData) "name"
               (nameValue ui) = Throw
    \/ exists t1,
        applyField (json_or_empty st) (targetPath_of nodeData) "name"
                   (nameValue ui) = Ok t1
        /\ applyField t1 (targetPath_of nodeData) "color" (colorValue ui)
           = Throw) ->
   save (st, ui) = (st, setEditing ui false))
  /\ (json (fst (save (st, ui))) = json st
      \/ exists t1 t2,
          applyField (json_or_empty st) (targetPath_of nodeData) "name"
                     (nameValue ui) = Ok t1
          /\ applyField t1 (targetPath_of nodeData) "color" (colorValue ui)
             = Ok t2
          /\ json (fst (save (st, ui))) = Some t2)
  /\ (valid (json_or_empty st) = true ->
      valid (json_or_empty (fst (save (st, ui)))) = true).
Proof.
  intros Hsel. split; [|split].
  - intros [H1|(t1 & H1 & H2)]; unfold onSave; rewrite Hsel.
    + now rewrite (commit_name_throws _ _ _ H1).
    + now rewrite (commit_color_throws _ _ _ _ H1 H2).
  - unfold onSave. rewrite Hsel.
    destruct (commit_cases st ui nodeData) as [E|(t1 & t2 & H1 & H2 & E)];
      rewrite E; cbn [fst].
    + now left.
    + right. exists t1, t2. repeat split; auto.
      now rewrite json_reconcile.
  - intros Hv. unfold onSave. rewrite Hsel.
    destruct (commit_cases st ui nodeData) as [E|(t1 & t2 & H1 & H2 & E)];
      rewrite E; cbn [fst].
    + exact Hv.
    + unfold json_or_empty at 1. rewrite json_reconcile. cbn [json setContents setJson].
      exact (edit_valid _ _ _ _ _ (edit_valid _ _ _ _ _ Hv H1) H2).
Qed.

End Validity.

(** C4: if, after Save, no node of the tree has a path equal to the target
    path, the selected node is the one that was selected before, neither
    cleared nor replaced, and the handler ends normally, out of the editing
    state.  This is so also when the commit went through: the text
    published and the tree are new, the selection is the old node. *)
Theorem reconcile_miss_keeps_selection (st : Store) (ui : ModalState)
        (nodeData : NodeData) :
  selectedNode st = Some nodeData ->
  (forall n, In n (nodes (fst (save (st, ui)))) ->
             path n <> Some (targetPath_of nodeData)) ->
  selectedNode (fst (save (st, ui))) = Some nodeData
  /\ editing (snd (save (st, ui))) = false
  /\ (forall t1 t2,
        applyField (json_or_empty st) (targetPath_of nodeData) "name"
                   (nameValue ui) = Ok t1 ->
        applyField t1 (targetPath_of nodeData) "color" (colorValue ui)
        = Ok t2 ->
        json (fst (save (st, ui))) = Some t2
        /\ nodes (fst (save (st, ui))) = parser t2).
Proof.
  intros Hsel. unfold onSave. rewrite Hsel.
  destruct (commit_cases st ui nodeData) as [E|(t1 & t2 & H1 & H2 & E)];
    rewrite E; cbn [fst snd]; intros Hmiss.
  - split; [exact Hsel|]. split; [reflexivity|].
    intros u1 u2 G1 G2. rewrite (commit_ok _ _ _ _ _ G1 G2) in E.
    discriminate E.
  - rewrite nodes_reconcile in Hmiss. rewrite (reconcile_miss _ _ Hmiss).
    split; [exact Hsel|]. split; [reflexivity|].
    intros u1 u2 G1 G2. rewrite H1 in G1. injection G1 as <-.
    rewrite H2 in G2. injection G2 as <-. split; reflexivity.
Qed.

End Commit.

(** The commit on the document with one member [name], the root selected. *)
Lemma commit_sequences_edits_witness :
  exists t1 t2,
    applyFieldEdit FlatDoc.modify FlatDoc.applyEdits
                   (json_or_empty (store_of doc_name node_root))
                   (targetPath_of node_root) "name" (nameValue draft) = Ok t1
    /\ applyFieldEdit FlatDoc.modify FlatDoc.applyEdits t1
                      (targetPath_of node_root) "color" (colorValue draft)
       = Ok t2
    /\ json (fst (onSave FlatDoc.modify FlatDoc.applyEdits FlatDoc.parser
                         (store_of doc_name node_root, draft))) = Some t2
    /\ FlatDoc.valueAt t2 (targetPath_of node_root ++ [SKey "name"])%list
       = Some (VStr (nameValue draft))
    /\ FlatDoc.valueAt t2 (targetPath_of node_root ++ [SKey "color"])%list
       = Some (VStr (colorValue draft)).
Proof.
  apply (commit_sequences_edits FlatDoc.modify FlatDoc.applyEdits
           FlatDoc.parser FlatDoc.objectAt FlatDoc.valueAt
           FlatDocFacts.field_edit_applies
           FlatDocFacts.field_edit_sets FlatDocFacts.field_edit_frames
           (store_of doc_name node_root) draft node_root).
  - reflexivity.
  - reflexivity.
Defined.

(** C1, as stated, fails: the document is valid and the base path resolves
    in it, to the string that is the first item of an array; a property
    cannot be added to a string, the name edit throws, and Save publishes
    nothing: the text is as before and shows neither new value. *)
Lemma commit_scalar_target_counterexample :
  FlatDoc.parse doc_items = Some (FlatDoc.DArray ["b"])
  /\ FlatDoc.valueAt doc_items (targetPath_of node_item) = Some (VStr "b")
  /\ In node_item (FlatDoc.parser doc_items)
  /\ onSave FlatDoc.modify FlatDoc.applyEdits FlatDoc.parser
            (store_of doc_items node_item, draft)
     = (store_of doc_items node_item, setEditing draft false)
  /\ FlatDoc.valueAt doc_items (targetPath_of node_item ++ [SKey "name"])%list
     <> Some (VStr (nameValue draft))
  /\ FlatDoc.valueAt doc_items (targetPath_of node_item ++ [SKey "color"])%list
     <> Some (VStr (colorValue draft)).
Proof.
  split; [reflexivity|]. split; [reflexivity|]. split; [now left|].
  split; [reflexivity|]. split; discriminate.
Qed.

Lemma flat_edit_valid (t : string) (p : JSONPath) (f v t' : string) :
  flat_valid t = true ->
  applyFieldEdit FlatDoc.modify FlatDoc.applyEdits t p f v = Ok t' ->
  flat_valid t' = true.
Proof.
  intros _ H.
  destruct (FlatDocFacts.field_edit_inv _ _ _ _ _ H) as (ms & _ & _ & ->).
  unfold flat_valid. now rewrite FlatDocFacts.parse_print_object.
Qed.

(** Save on an item of an array: the name edit throws, the stores are as
    they were and the document is the valid text it was. *)
Lemma commit_failure_aborts_witness :
  onSave FlatDoc.modify FlatDoc.applyEdits FlatDoc.parser
         (store_of doc_items node_item, draft)
  = (store_of doc_items node_item, setEditing draft false)
  /\ flat_valid
       (json_or_empty
          (fst (onSave FlatDoc.modify FlatDoc.applyEdits FlatDoc.parser
                       (store_of doc_items node_item, draft)))) = true.
Proof.
  destruct (commit_failure_aborts FlatDoc.modify FlatDoc.applyEdits
              FlatDoc.parser flat_valid flat_edit_valid
              (store_of doc_items node_item) draft node_item eq_refl)
    as (Habort & _ & Hvalid).
  split.
  - apply Habort. left. reflexivity.
  - apply Hvalid. reflexivity.
Defined.

(** C2, as stated, fails, on the array with the one item [b] and the node of
    that item.  The document is valid and the editor has unsaved changes.
    The name edit throws, since a property cannot be added to a string.  A
    commit that abandoned that field only and continued would go on to the
    color edit and then publish, marking the editor clean; Save stops at the
    failure and leaves every store as it was, the editor still marked as
    changed: nothing is published. *)
Lemma commit_best_effort_counterexample :
  flat_valid doc_items = true
  /\ In node_item (FlatDoc.parser doc_items)
  /\ applyFieldEdit FlatDoc.modify FlatDoc.applyEdits doc_items
                    (targetPath_of node_item) "name" (nameValue draft)
     = Throw
  /\ onSave FlatDoc.modify FlatDoc.applyEdits FlatDoc.parser
            (store_of doc_items node_item, draft)
     = (store_of doc_items node_item, setEditing draft false)
  /\ hasChanges (fst (onSave FlatDoc.modify FlatDoc.applyEdits FlatDoc.parser
                             (store_of doc_items node_item, draft)))
     = true
  /\ hasChanges (fst (onSave_best_effort FlatDoc.modify FlatDoc.applyEdits
                                         FlatDoc.parser
                                         (store_of doc_items node_item, draft)))
     = false
  /\ onSave FlatDoc.modify FlatDoc.applyEdits FlatDoc.parser
            (store_of doc_items node_item, draft)
     <> onSave_best_effort FlatDoc.modify FlatDoc.applyEdits FlatDoc.parser
                           (store_of doc_items node_item, draft).
Proof.
  split; [reflexivity|]. split; [now left|]. split; [reflexivity|].
  split; [reflexivity|]. split; [reflexivity|]. split; [reflexivity|].
  intros E. apply (f_equal (fun w => hasChanges (fst w))) in E.
  discriminate E.
Qed.

(** Save with a graph builder that yields no node: the text is published
    and the selection is the node selected before. *)
Lemma reconcile_miss_keeps_selection_witness :
  selectedNode (fst (onSave FlatDoc.modify FlatDoc.applyEdits FlatDoc.no_graph
                            (store_of doc_name node_root, draft)))
  = Some node_root
  /\ json (fst (onSave FlatDoc.modify FlatDoc.applyEdits FlatDoc.no_graph
                       (store_of doc_name node_root, draft)))
     = Some (FlatDoc.print (FlatDoc.DObject [("name", "y"); ("color", "#fff")])).
Proof.
  destruct (reconcile_miss_keeps_selection
              FlatDoc.modify FlatDoc.applyEdits FlatDoc.no_graph
              (store_of doc_name node_root) draft node_root)
    as (Hsel & _ & Hpub).
  - reflexivity.
  - intros n [].
  - split; [exact Hsel|].
    apply (Hpub (FlatDoc.print (FlatDoc.DObject [("name", "y")]))
                (FlatDoc.print (FlatDoc.DObject [("name", "y"); ("color", "#fff")])));
      reflexivity.
Defined.

(* ================================================================== *)
(** ** The object the normalizer prints *)
(* ================================================================== *)

From Stdlib Require Import Permutation Sorted.

Section Projection.

Lemma has_own_In (k : string) (l : list (string * JsValue)) :
  has_own k l = true <-> In k (map fst l).
Proof.
  unfold has_own. rewrite existsb_exists. split.
  - intros ([k' v] & Hin & E). apply String.eqb_eq in E. simpl in E. subst k'.
    apply in_map_iff. now exists (k, v).
  - intros H. apply in_map_iff in H. destruct H as ([k' v] & E & Hin).
    simpl in E. subst k'. exists (k, v). split; [assumption|].
    apply String.eqb_refl.
Qed.

Lemma has_own_not_In (k : string) (l : list (string * JsValue)) :
  has_own k l = false <-> ~ In k (map fst l).
Proof.
  rewrite <- has_own_In. destruct (has_own k l); split.
  - discriminate.
  - intros H. exfalso. now apply H.
  - intros _ E. discriminate E.
  - reflexivity.
Qed.

Lemma keys_replace_own (k : string) (v : JsValue) (l : list (string * JsValue)) :
  map fst (replace_own k v l) = map fst l.
Proof.
  induction l as [|[k' v'] l IH]; simpl; [reflexivity|].
  destruct (k' =? k); simpl; [reflexivity | now rewrite IH].
Qed.

(** Assignment keeps the keys, or adds the key last when it is new. *)
Lemma keys_Set (o : JsObject) (k : string) (v : JsValue) :
  map fst (own (Set_ o k v)) = map fst (own o)
  \/ (~ In k (map fst (own o))
      /\ map fst (own (Set_ o k v)) = (map fst (own o) ++ [k])%list).
Proof.
  unfold Set_. destruct (has_own k (own o)) eqn:Ho.
  - left. apply keys_replace_own.
  - destruct ((k =? "__proto__") && has_Object_prototype o).
    + left. now destruct v.
    + right. split; [now apply has_own_not_In|].
      simpl. now rewrite map_app.
Qed.

Lemma NoDup_Set (o : JsObject) (k : string) (v : JsValue) :
  NoDup (map fst (own o)) -> NoDup (map fst (own (Set_ o k v))).
Proof.
  intros H. destruct (keys_Set o k v) as [-> | [Hk ->]]; [assumption|].
  apply NoDup_app.
  - assumption.
  - constructor; [intros [] | constructor].
  - intros x Hx [<-|[]]. contradiction.
Qed.

Lemma NoDup_step (o : JsObject) (r : NodeRow) :
  NoDup (map fst (own o)) -> NoDup (map fst (own (normalize_step o r))).
Proof.
  intros H. destruct (kept r) eqn:Hk.
  - destruct (step_kept o r Hk) as (k & _ & _ & ->). now apply NoDup_Set.
  - now rewrite step_not_kept.
Qed.

Lemma NoDup_fold (rows : list NodeRow) : forall o,
  NoDup (map fst (own o)) ->
  NoDup (map fst (own (fold_left normalize_step rows o))).
Proof.
  induction rows as [|r rows IH]; intros o H; simpl; [assumption|].
  apply IH. now apply NoDup_step.
Qed.

Lemma insert_by_index_perm (e : string * JsValue) (l : list (string * JsValue)) :
  Permutation (insert_by_index e l) (e :: l).
Proof.
  induction l as [|e' l IH]; simpl; [reflexivity|].
  destruct (index_of (fst e) <=? index_of (fst e'))%N; [reflexivity|].
  rewrite IH. apply perm_swap.
Qed.

Lemma sort_by_index_perm (l : list (string * JsValue)) :
  Permutation (sort_by_index l) l.
Proof.
  induction l as [|e l IH]; simpl; [reflexivity|].
  rewrite insert_by_index_perm. now constructor.
Qed.

Lemma filter_split_perm {A : Type} (f : A -> bool) (l : list A) :
  Permutation (filter f l ++ filter (fun x => negb (f x)) l) l.
Proof.
  induction l as [|x l IH]; simpl; [reflexivity|].
  destruct (f x); simpl.
  - now constructor.
  - rewrite <- Permutation_middle. now constructor.
Qed.

(** Enumeration lists the own properties, each once. *)
Lemma EnumerableOwnProperties_perm (o : JsObject) :
  Permutation (EnumerableOwnProperties o) (own o).
Proof.
  unfold EnumerableOwnProperties.
  rewrite sort_by_index_perm.
  apply (filter_split_perm (fun kv => is_array_index (fst kv))).
Qed.

Lemma normalize_prints_projection (r1 r2 : NodeRow) (rest : list NodeRow) :
  normalizeNodeData (Some (r1 :: r2 :: rest))
  = SerializeJSONObject (projected_entries (r1 :: r2 :: rest)).
Proof. reflexivity. Qed.

Lemma In_replace_own (k k' : string) (v v' : JsValue) (l : list (string * JsValue)) :
  NoDup (map fst l) -> In k' (map fst l) ->
  (In (k, v) (replace_own k' v' l)
   <-> if k' =? k then v = v' else In (k, v) l).
Proof.
  induction l as [|[a b] l IH]; simpl; intros Hnd Hin; [contradiction|].
  inversion Hnd as [|x xs Hx Hnd']; subst.
  destruct (String.eqb_spec a k') as [->|Hak].
  - simpl. destruct (String.eqb_spec k' k) as [->|Hk].
    + split.
      * intros [E|Hl]; [now injection E|].
        exfalso. apply Hx. apply in_map_iff. now exists (k, v).
      * intros ->. now left.
    + split.
      * intros [E|Hl]; [injection E as E _; contradiction | now right].
      * intros [E|Hl]; [injection E as E _; contradiction | now right].
  - destruct Hin as [E|Hin]; [contradiction|].
    specialize (IH Hnd' Hin). simpl. rewrite IH.
    destruct (String.eqb_spec k' k) as [->|Hk].
    + split.
      * intros [E|Hv]; [injection E as E _; contradiction | assumption].
      * intros ->. now right.
    + reflexivity.
Qed.

(** What a key holds after one assignment. *)
Lemma In_Set (o : JsObject) (k k' : string) (v v' : JsValue) :
  NoDup (map fst (own o)) -> k <> "__proto__" ->
  (In (k, v) (own (Set_ o k' v'))
   <-> if k' =? k then v = v' else In (k, v) (own o)).
Proof.
  intros Hnd Hk. unfold Set_.
  destruct (has_own k' (own o)) eqn:Ho.
  - simpl. apply In_replace_own; [assumption | now apply has_own_In].
  - apply has_own_not_In in Ho.
    destruct (String.eqb_spec k' k) as [->|Hne].
    + destruct (String.eqb_spec k "__proto__") as [E|_]; [contradiction|].
      simpl. rewrite in_app_iff. simpl. split.
      * intros [H|[E|[]]]; [|now injection E].
        exfalso. apply Ho. apply in_map_iff. now exists (k, v).
      * intros ->. right. now left.
    + destruct ((k' =? "__proto__") && has_Object_prototype o).
      * now destruct v'.
      * simpl. rewrite in_app_iff. simpl. split.
        -- intros [H|[E|[]]]; [assumption|]. injection E as E _. contradiction.
        -- intros H. now left.
Qed.

Lemma In_step (o : JsObject) (r : NodeRow) (k : string) (v : JsValue) :
  NoDup (map fst (own o)) -> k <> "__proto__" ->
  (In (k, v) (own (normalize_step o r))
   <-> if kept r && has_key k r then v = value r else In (k, v) (own o)).
Proof.
  intros Hnd Hk. destruct (kept r) eqn:Hkept.
  - destruct (step_kept o r Hkept) as (k' & Ek & _ & ->).
    unfold has_key. rewrite Ek. simpl. now apply In_Set.
  - rewrite step_not_kept by assumption. reflexivity.
Qed.

Lemma In_fold (k : string) (rows : list NodeRow) : forall (o : JsObject) (v : JsValue),
  NoDup (map fst (own o)) -> k <> "__proto__" ->
  (In (k, v) (own (fold_left normalize_step rows o))
   <-> match last_kept_value k rows with
       | Some v' => v = v'
       | None => In (k, v) (own o)
       end).
Proof.
  induction rows as [|r rows IH]; intros o v Hnd Hk; simpl; [reflexivity|].
  rewrite (IH (normalize_step o r) v (NoDup_step o r Hnd) Hk).
  destruct (last_kept_value k rows) as [v'|]; [reflexivity|].
  rewrite (In_step o r k v Hnd Hk).
  destruct (kept r && has_key k r); reflexivity.
Qed.

(** The prototype stays and [__proto__] stays out, as long as no row
    assigns [null] to it. *)
Lemma proto_step (o : JsObject) (r : NodeRow) :
  (kept r = true -> key r = Some "__proto__" -> value r <> VNull) ->
  has_Object_prototype o = true /\ ~ In "__proto__" (map fst (own o)) ->
  has_Object_prototype (normalize_step o r) = true
  /\ ~ In "__proto__" (map fst (own (normalize_step o r))).
Proof.
  intros Hr [Hp Hn]. destruct (kept r) eqn:Hk.
  - destruct (step_kept o r Hk) as (k & Ek & _ & ->).
    unfold Set_. destruct (has_own k (own o)) eqn:Ho.
    + simpl. now rewrite keys_replace_own.
    + rewrite Hp, andb_true_r.
      destruct (String.eqb_spec k "__proto__") as [->|Hne].
      * specialize (Hr eq_refl Ek). destruct (value r); try contradiction; auto.
      * simpl. split; [reflexivity|]. rewrite map_app, in_app_iff. simpl.
        intros [H|[E|[]]]; [now apply Hn | now apply Hne].
  - rewrite step_not_kept by assumption. auto.
Qed.

Lemma proto_fold (rows : list NodeRow) : forall o,
  (forall r, In r rows -> kept r = true -> key r = Some "__proto__" ->
             value r <> VNull) ->
  has_Object_prototype o = true /\ ~ In "__proto__" (map fst (own o)) ->
  ~ In "__proto__" (map fst (own (fold_left normalize_step rows o))).
Proof.
  induction rows as [|r rows IH]; intros o Hr Ho; simpl; [apply Ho|].
  apply IH.
  - intros r' Hin. apply Hr. now right.
  - apply proto_step; [|assumption]. apply Hr. now left.
Qed.

End Projection.

(** X1: the object the normalizer prints never has two entries with the same
    key, whatever the rows; a list of two or more rows is printed as this
    object. *)
Theorem projection_keys_unique :
  (forall rows : list NodeRow, NoDup (map fst (projected_entries rows)))
  /\ (forall (r1 r2 : NodeRow) (rest : list NodeRow),
        normalizeNodeData (Some (r1 :: r2 :: rest))
        = SerializeJSONObject (projected_entries (r1 :: r2 :: rest))).
Proof.
  split; [|exact normalize_prints_projection].
  intros rows. unfold projected_entries.
  apply (Permutation_NoDup (l := map fst (own (fold_left normalize_step rows empty_object)))).
  - apply Permutation_map. symmetry. apply EnumerableOwnProperties_perm.
  - apply NoDup_fold. constructor.
Qed.

(** X2: for a key k other than [__proto__], the object the normalizer prints
    holds the entry (k, v) exactly when v is the value of the last row with
    the key k among the rows the loop assigns, those that are no container
    and have a non-empty key: a later such row overwrites an earlier one with
    the same key, and a key no such row has is absent; the empty key, which
    no such row has, never has an entry. *)
Theorem projection_last_value (rows : list NodeRow) (k : string) (v : JsValue) :
  k <> "__proto__" ->
  (In (k, v) (projected_entries rows) <-> last_kept_value k rows = Some v).
Proof.
  intros Hk. unfold projected_entries.
  transitivity (In (k, v) (own (fold_left normalize_step rows empty_object))).
  - split; apply Permutation_in;
      [|symmetry]; apply EnumerableOwnProperties_perm.
  - rewrite (In_fold k rows empty_object v (NoDup_nil _) Hk).
    destruct (last_kept_value k rows) as [v'|]; simpl.
    + split; [now intros -> | now injection 1].
    + split; [contradiction | discriminate].
Qed.

(** The later of two rows with the key [a] gives the value. *)
Lemma projection_last_value_witness :
  In ("a", VNum 2) (projected_entries [row_a1; row_b; row_a2])
  <-> last_kept_value "a" [row_a1; row_b; row_a2] = Some (VNum 2).
Proof.
  apply (projection_last_value [row_a1; row_b; row_a2] "a" (VNum 2)).
  discriminate.
Defined.

(** X4: if no row that is no container assigns [null] to the key
    [__proto__], the object the normalizer prints has no entry named
    [__proto__]: such rows are dropped from the projection. *)
Theorem projection_drops_proto (rows : list NodeRow) :
  (forall r, In r rows -> kept r = true -> key r = Some "__proto__" ->
             value r <> VNull) ->
  ~ In "__proto__" (map fst (projected_entries rows)).
Proof.
  intros H Hin. unfold projected_entries in Hin.
  apply (Permutation_in _ (Permutation_map fst (EnumerableOwnProperties_perm _)))
    in Hin.
  revert Hin. apply proto_fold; [exact H|].
  split; [reflexivity | intros []].
Qed.

(** A row that assigns a number to [__proto__], after a row with the key [a]. *)
Lemma projection_drops_proto_witness :
  ~ In "__proto__" (map fst (projected_entries [row_a1; row_proto])).
Proof.
  apply (projection_drops_proto [row_a1; row_proto]).
  intros r [<-|[<-|[]]] _ E; [discriminate E | discriminate].
Defined.

Section ProjectionOrder.

Lemma Forall_perm {A : Type} (P : A -> Prop) (l l' : list A) :
  Permutation l l' -> Forall P l -> Forall P l'.
Proof.
  intros Hp H. rewrite Forall_forall in *. intros x Hx.
  apply H. apply (Permutation_in _ (Permutation_sym Hp) Hx).
Qed.

Lemma filter_idem {A : Type} (f : A -> bool) (l : list A) :
  filter f (filter f l) = filter f l.
Proof. apply forallb_filter_id, forallb_filter. Qed.

Lemma insert_by_index_sorted (e : string * JsValue) (l : list (string * JsValue)) :
  StronglySorted index_le l -> StronglySorted index_le (insert_by_index e l).
Proof.
  induction 1 as [|a l Hs IH Ha]; simpl.
  - repeat constructor.
  - destruct (N.leb_spec (index_of (fst e)) (index_of (fst a))) as [Hle|Hgt].
    + constructor; [now constructor|].
      constructor; [exact Hle|].
      eapply Forall_impl; [|exact Ha].
      intros b Hb. unfold index_le in *. lia.
    + constructor; [exact IH|].
      apply (Forall_perm _ (e :: l)).
      * symmetry. apply insert_by_index_perm.
      * constructor; [unfold index_le; lia | exact Ha].
Qed.

Lemma sort_by_index_sorted (l : list (string * JsValue)) :
  StronglySorted index_le (sort_by_index l).
Proof.
  induction l as [|e l IH]; simpl; [constructor|].
  now apply insert_by_index_sorted.
Qed.

(** An array index determines its key. *)
Lemma index_of_inj (a b : string) :
  is_array_index a = true -> is_array_index b = true ->
  index_of a = index_of b -> a = b.
Proof.
  unfold is_array_index, index_of, array_index.
  destruct (NilEmpty.uint_of_string a) as [da|]; [|discriminate].
  destruct (NilEmpty.uint_of_string b) as [db|]; [|discriminate].
  destruct (String.eqb_spec (NilEmpty.string_of_uint (N.to_uint (N.of_uint da))) a)
    as [Ea|]; [|discriminate].
  destruct (String.eqb_spec (NilEmpty.string_of_uint (N.to_uint (N.of_uint db))) b)
    as [Eb|]; [|discriminate].
  simpl.
  destruct (N.of_uint da <? 4294967295)%N; [|discriminate].
  destruct (N.of_uint db <? 4294967295)%N; [|discriminate].
  intros _ _ E. rewrite <- Ea, <- Eb, E. reflexivity.
Qed.

Lemma sorted_strict (l : list (string * JsValue)) :
  StronglySorted index_le l ->
  NoDup (map fst l) ->
  Forall (fun kv => is_array_index (fst kv) = true) l ->
  StronglySorted index_lt l.
Proof.
  induction 1 as [|a l Hs IH Ha]; intros Hnd Hidx; [constructor|].
  simpl in Hnd. inversion Hnd as [|x xs Hx Hnd']; subst.
  inversion Hidx as [|y ys Hy Hidx']; subst.
  constructor; [now apply IH|].
  rewrite Forall_forall in *. intros b Hb.
  specialize (Ha b Hb). unfold index_le, index_lt in *.
  destruct (N.eq_dec (index_of (fst a)) (index_of (fst b))) as [E|Hne]; [|lia].
  exfalso. apply Hx.
  rewrite (index_of_inj _ _ Hy (Hidx' b Hb) E). now apply in_map.
Qed.

Lemma has_own_existsb (k : string) (l : list (string * JsValue)) :
  has_own k l = existsb (String.eqb k) (map fst l).
Proof.
  unfold has_own. induction l as [|[a b] l IH]; simpl; [reflexivity|].
  now rewrite IH, String.eqb_sym.
Qed.

Lemma keys_Set_add (o : JsObject) (k : string) (v : JsValue) :
  k <> "__proto__" ->
  map fst (own (Set_ o k v)) = add_key (map fst (own o)) k.
Proof.
  intros Hk. unfold Set_, add_key. rewrite <- has_own_existsb.
  destruct (has_own k (own o)); [apply keys_replace_own|].
  destruct (String.eqb_spec k "__proto__") as [E|_]; [contradiction|].
  simpl. now rewrite map_app.
Qed.

Lemma keys_fold (rows : list NodeRow) : forall o,
  (forall k, In k (map fst (kept_entries rows)) -> k <> "__proto__") ->
  map fst (own (fold_left normalize_step rows o))
  = fold_left add_key (map fst (kept_entries rows)) (map fst (own o)).
Proof.
  induction rows as [|r rows IH]; intros o Hk; [reflexivity|].
  unfold kept_entries in *. cbn [fold_left flat_map] in *.
  rewrite map_app, fold_left_app.
  rewrite map_app in Hk.
  rewrite IH by (intros k Hin; apply Hk, in_app_iff; now right).
  f_equal. destruct (kept r) eqn:Hkept.
  - destruct (step_kept o r Hkept) as (k & Ek & _ & ->).
    rewrite Ek in *. simpl. apply keys_Set_add.
    apply Hk, in_app_iff. left. now left.
  - now rewrite step_not_kept.
Qed.

Lemma filter_map_fst (f : string -> bool) (l : list (string * JsValue)) :
  map fst (filter (fun kv => f (fst kv)) l) = filter f (map fst l).
Proof.
  induction l as [|[k v] l IH]; simpl; [reflexivity|].
  destruct (f k); simpl; now rewrite IH.
Qed.

Lemma filter_none {A : Type} (f : A -> bool) (l : list A) :
  Forall (fun x => f x = false) l -> filter f l = [].
Proof.
  induction 1 as [|x l Hx _ IH]; simpl; [reflexivity|]. now rewrite Hx.
Qed.

Lemma Forall_filter {A : Type} (f : A -> bool) (l : list A) :
  Forall (fun x => f x = true) (filter f l).
Proof.
  apply Forall_forall. intros x Hx. now apply filter_In in Hx.
Qed.

End ProjectionOrder.

(** X3: the object the normalizer prints lists the entries whose key is an
    array index first, in strictly ascending numeric order, and the other
    entries after them, whatever the order of the rows. *)
Theorem projection_indices_first (rows : list NodeRow) :
  exists idx rest,
    projected_entries rows = (idx ++ rest)%list
    /\ Forall (fun kv => is_array_index (fst kv) = true) idx
    /\ StronglySorted index_lt idx
    /\ Forall (fun kv => is_array_index (fst kv) = false) rest.
Proof.
  unfold projected_entries, EnumerableOwnProperties.
  set (o := fold_left normalize_step rows empty_object).
  exists (sort_by_index (filter (fun kv => is_array_index (fst kv)) (own o))),
         (filter (fun kv => negb (is_array_index (fst kv))) (own o)).
  assert (Hidx : Forall (fun kv => is_array_index (fst kv) = true)
                   (sort_by_index
                      (filter (fun kv => is_array_index (fst kv)) (own o)))).
  { apply (Forall_perm _ (filter (fun kv => is_array_index (fst kv)) (own o))).
    - symmetry. apply sort_by_index_perm.
    - apply (Forall_filter (fun kv => is_array_index (fst kv))). }
  split; [reflexivity|]. split; [exact Hidx|]. split.
  - apply sorted_strict; [apply sort_by_index_sorted | | exact Hidx].
    apply (Permutation_NoDup
             (l := map fst (filter (fun kv => is_array_index (fst kv)) (own o)))).
    + apply Permutation_map. symmetry. apply sort_by_index_perm.
    + rewrite filter_map_fst. apply NoDup_filter.
      apply NoDup_fold. constructor.
  - apply Forall_forall. intros kv Hkv. apply filter_In in Hkv.
    destruct Hkv as [_ H]. now apply negb_true_iff in H.
Qed.

(** X5: if no row that is no container has the key [__proto__], the keys
    that are no array index appear in the object the normalizer prints in
    the order in which they first occur among the rows that are no container
    and have a non-empty key. *)
Theorem projection_first_occurrence (rows : list NodeRow) :
  (forall k, In k (map fst (kept_entries rows)) -> k <> "__proto__") ->
  filter (fun k => negb (is_array_index k)) (map fst (projected_entries rows))
  = filter (fun k => negb (is_array_index k))
           (first_occurrences (map fst (kept_entries rows))).
Proof.
  intros Hk. unfold projected_entries, EnumerableOwnProperties, first_occurrences.
  set (o := fold_left normalize_step rows empty_object).
  rewrite map_app, filter_app.
  rewrite (filter_none (fun k => negb (is_array_index k))).
  - cbn [app]. rewrite (filter_map_fst (fun k => negb (is_array_index k))).
    rewrite filter_idem. unfold o. now rewrite keys_fold.
  - apply Forall_forall. intros k Hin. apply in_map_iff in Hin.
    destruct Hin as (kv & <- & Hin).
    apply (Permutation_in _ (sort_by_index_perm _)) in Hin.
    apply filter_In in Hin. destruct Hin as [_ ->]. reflexivity.
Qed.

(** The key [b] comes before the key [a], and the index [1] before both. *)
Lemma projection_first_occurrence_witness :
  filter (fun k => negb (is_array_index k))
         (map fst (projected_entries [row_b; row_1; row_a1; row_b]))
  = ["b"; "a"].
Proof.
  rewrite (projection_first_occurrence [row_b; row_1; row_a1; row_b]).
  - reflexivity.
  - intros k [<-|[<-|[<-|[<-|[]]]]]; discriminate.
Defined.

(* ================================================================== *)
(** ** Path expressions *)
(* ================================================================== *)

Section PathExpressions.

Lemma concat_empty_cons (x : string) (l : list string) :
  String.concat EmptyString (x :: l) = x ++ String.concat EmptyString l.
Proof. destruct l; cbn [String.concat]; [now rewrite append_nil_r | reflexivity]. Qed.

Lemma concat_empty_app (l l' : list string) :
  String.concat EmptyString (l ++ l')
  = String.concat EmptyString l ++ String.concat EmptyString l'.
Proof.
  induction l as [|x l IH]; [reflexivity|].
  cbn [app]. now rewrite !concat_empty_cons, IH, append_assoc.
Qed.

Lemma jsonPathToString_brackets (p : JSONPath) :
  jsonPathToString (Some p) = "$" ++ String.concat EmptyString (map bracketed p).
Proof.
  destruct p as [|seg p]; [reflexivity|].
  unfold jsonPathToString, Array_join. cbn [List.length Nat.eqb].
  rewrite map_map.
  transitivity ("$" ++ "[" ++ String.concat "]["
                  (map (fun x => ToString (path_segment x)) (seg :: p)) ++ "]");
    [reflexivity|].
  cbn [map]. rewrite join_brackets.
  apply (f_equal (fun l => "$" ++ String.concat EmptyString l)).
  cbn [map]. rewrite map_map, bracketed_segment.
  apply (f_equal (cons _)), map_ext. intros a.
  symmetry. apply bracketed_segment.
Qed.

Lemma read_until_quote_free (s rest : string) :
  quote_free s = true ->
  read_until_quote (s ++ String dquote rest) = (s, rest).
Proof.
  induction s as [|c s IH]; cbn [quote_free append read_until_quote]; intros H.
  - reflexivity.
  - apply andb_true_iff in H. destruct H as [Hc Hs].
    apply negb_true_iff in Hc. rewrite Hc, (IH Hs). reflexivity.
Qed.

(** A bracketed segment is determined by any text it starts. *)
Lemma bracketed_prefix (a b : Segment) (t1 t2 : string) :
  segment_quote_free a = true -> segment_quote_free b = true ->
  bracketed a ++ t1 = bracketed b ++ t2 ->
  a = b /\ t1 = t2.
Proof.
  intros Ha Hb E. unfold bracketed in E.
  rewrite !append_assoc in E. cbn [append] in E. injection E as E.
  destruct a as [n|s], b as [m|t]; cbn [segment_quote_free] in *.
  - rewrite !Number_toString_of_N in E.
    apply (f_equal read_digits) in E.
    rewrite !read_digits_uint in E by reflexivity.
    injection E as E1 E2.
    split; [|assumption].
    f_equal. now apply DecimalN.Unsigned.to_uint_inj, string_of_uint_inj.
  - exfalso. rewrite Number_toString_of_N in E.
    destruct (string_of_uint_head _ (to_uint_nonnil n)) as (c & r & Ec & Hc).
    rewrite Ec in E. cbn [append] in E.
    injection E as E _. subst c. discriminate Hc.
  - exfalso. rewrite Number_toString_of_N in E.
    destruct (string_of_uint_head _ (to_uint_nonnil m)) as (c & r & Ec & Hc).
    rewrite Ec in E. cbn [append] in E.
    injection E as E _. subst c. discriminate Hc.
  - cbn [append] in E. injection E as E.
    rewrite !append_assoc in E. cbn [str1 append] in E.
    apply (f_equal read_until_quote) in E.
    rewrite !read_until_quote_free in E by assumption.
    injection E as E1 E2.
    split; [now f_equal | assumption].
Qed.

Lemma bracketed_head (a : Segment) :
  exists r, bracketed a = String "[" r.
Proof. unfold bracketed. cbn [append]. eexists. reflexivity. Qed.

Lemma brackets_inj (p q : JSONPath) :
  forallb segment_quote_free p = true ->
  forallb segment_quote_free q = true ->
  String.concat EmptyString (map bracketed p)
  = String.concat EmptyString (map bracketed q) ->
  p = q.
Proof.
  revert q. induction p as [|a p IH]; intros [|b q] Hp Hq E.
  - reflexivity.
  - exfalso. cbn [map] in E. rewrite concat_empty_cons in E.
    destruct (bracketed_head b) as (r & Hr). rewrite Hr in E. discriminate E.
  - exfalso. cbn [map] in E. rewrite concat_empty_cons in E.
    destruct (bracketed_head a) as (r & Hr). rewrite Hr in E. discriminate E.
  - cbn [map forallb] in *. rewrite !concat_empty_cons in E.
    apply andb_true_iff in Hp, Hq. destruct Hp as [Ha Hp], Hq as [Hb Hq].
    apply bracketed_prefix in E; [|assumption..].
    destruct E as [-> E]. f_equal. now apply IH.
Qed.

End PathExpressions.

(** X6: the path expression of a path extended by more segments is the
    path expression of the path followed by the bracketed segments added; so
    the expression of a node starts with the expression of each of its
    ancestors. *)
Theorem jsonPathToString_append (p q : JSONPath) :
  jsonPathToString (Some (p ++ q)%list)
  = jsonPathToString (Some p) ++ String.concat EmptyString (map bracketed q).
Proof.
  rewrite !jsonPathToString_brackets, map_app, concat_empty_app.
  now rewrite append_assoc.
Qed.

(** X7: on paths whose keys hold no double quote the path formatter is
    injective: two such paths with the same path expression are the same
    path. *)
Theorem jsonPathToString_injective (p q : JSONPath) :
  forallb segment_quote_free p = true ->
  forallb segment_quote_free q = true ->
  jsonPathToString (Some p) = jsonPathToString (Some q) ->
  p = q.
Proof.
  intros Hp Hq E. rewrite !jsonPathToString_brackets in E.
  cbn [append] in E. injection E as E. now apply brackets_inj.
Qed.

(** Two ways to write the path to the first order of a customer. *)
Lemma jsonPathToString_injective_witness :
  [SKey "customer"; SKey "orders"; SIdx 0]
  = ([SKey "customer"] ++ [SKey "orders"; SIdx 0])%list.
Proof.
  apply jsonPathToString_injective; reflexivity.
Defined.

(** X8: the path formatter does not escape a double quote inside a key, so
    it is not injective in general: a key made of [s], a double quote, [][],
    a double quote and [t] is printed like the two keys [s] and [t] one after
    the other, under any parent path; and an undefined path is printed like
    the empty path. *)
Theorem jsonPathToString_collision :
  (forall (p : JSONPath) (s t : string),
      jsonPathToString
        (Some (p ++ [SKey (s ++ str1 dquote ++ "][" ++ str1 dquote ++ t)])%list)
      = jsonPathToString (Some (p ++ [SKey s; SKey t])%list)
      /\ (p ++ [SKey (s ++ str1 dquote ++ "][" ++ str1 dquote ++ t)])%list
         <> (p ++ [SKey s; SKey t])%list)
  /\ jsonPathToString None = jsonPathToString (Some []).
Proof.
  split; [|reflexivity].
  intros p s t. split.
  - rewrite !jsonPathToString_append. f_equal.
    cbn [map]. rewrite !concat_empty_cons. unfold bracketed.
    cbn [String.concat str1 append].
    rewrite !append_nil_r. repeat rewrite append_assoc.
    cbn [append str1]. repeat rewrite append_assoc. reflexivity.
  - intros E. apply (f_equal (@List.length Segment)) in E.
    rewrite !length_app in E. simpl in E. lia.
Qed.

(* ================================================================== *)
(** ** The modal as a whole *)
(* ================================================================== *)

Section Fields.

Lemma find_first {A : Type} (f : A -> bool) (pre post : list A) (r : A) :
  (forall x, In x pre -> f x = false) -> f r = true ->
  find f (pre ++ r :: post) = Some r.
Proof.
  intros Hpre Hr. induction pre as [|x pre IH]; simpl.
  - now rewrite Hr.
  - rewrite (Hpre x) by now left. apply IH. intros y Hy. apply Hpre. now right.
Qed.

Lemma key_is_lower (field s : string) (r : NodeRow) :
  key r = Some s -> toLowerCase s = field -> key_is field r = true.
Proof.
  intros Ek El. unfold key_is. rewrite Ek. simpl. rewrite El.
  apply String.eqb_refl.
Qed.

End Fields.

(** X9: the effect reads each draft from the first row whose key is the
    field name up to the case of its letters, whatever rows follow it: the
    draft is the string form of the row's value, and the empty string when
    the value is null; the editing state is left as it is. *)
Theorem initFields_first_row (n : NodeData) (ui : ModalState)
        (pre post : list NodeRow) (r : NodeRow) (s : string) :
  text n = (pre ++ r :: post)%list ->
  key r = Some s ->
  ((forall x, In x pre -> key_is "name" x = false) ->
   toLowerCase s = "name" ->
   nameValue (initFields (Some n) ui)
   = match value r with VNull => EmptyString | v => ToString v end)
  /\ ((forall x, In x pre -> key_is "color" x = false) ->
      toLowerCase s = "color" ->
      colorValue (initFields (Some n) ui)
      = match value r with VNull => EmptyString | v => ToString v end)
  /\ editing (initFields (Some n) ui) = editing ui.
Proof.
  intros Ht Ek. unfold initFields. rewrite Ht. split; [|split].
  - intros Hpre El.
    rewrite (find_first _ pre post r Hpre (key_is_lower _ _ _ Ek El)).
    reflexivity.
  - intros Hpre El.
    rewrite (find_first (key_is "color") pre post r Hpre
                        (key_is_lower _ _ _ Ek El)).
    reflexivity.
  - reflexivity.
Qed.

(** A node whose second row has the key [Name], in capitals, and a number. *)
Lemma initFields_first_row_witness :
  nameValue
    (initFields
       (Some (mkNode "n" [row_b; mkRow (Some "NaMe") (VNum 7) TNumber; row_a1]
                     None))
       draft)
  = "7".
Proof.
  apply (initFields_first_row
           (mkNode "n" [row_b; mkRow (Some "NaMe") (VNum 7) TNumber; row_a1] None)
           draft [row_b] [row_a1]
           (mkRow (Some "NaMe") (VNum 7) TNumber) "NaMe" eq_refl eq_refl).
  - intros x [<-|[]]. reflexivity.
  - reflexivity.
Defined.

Section Modal.

Variable modify : string -> JSONPath -> string -> FormattingOptions -> Result (list Edit).
Variable applyEdits : string -> list Edit -> Result string.
Variable parser : string -> list NodeData.

Local Abbreviation applyField := (applyFieldEdit modify applyEdits).
Local Abbreviation save := (onSave modify applyEdits parser).
Local Abbreviation dispatch' := (dispatch modify applyEdits parser).
Local Abbreviation run' := (run modify applyEdits parser).

Lemma selected_reconcile (st : Store) (nodeData : NodeData) :
  (selectedNode (reconcile st nodeData) = selectedNode st
   /\ forall n, In n (nodes st) -> path n <> Some (targetPath_of nodeData))
  \/ exists m, selectedNode (reconcile st nodeData) = Some m
               /\ In m (nodes st)
               /\ path m = Some (targetPath_of nodeData).
Proof.
  unfold reconcile.
  destruct (find _ _) as [m|] eqn:E.
  - right. exists m. apply find_some in E. destruct E as [Hin Hm].
    repeat split; [assumption|]. now apply path_matches_iff.
  - left. split; [reflexivity|]. intros n Hin Hp.
    apply (find_none _ _ E) in Hin.
    apply path_matches_iff in Hp. congruence.
Qed.

Lemma frame_reconcile (st : Store) (nodeData : NodeData) :
  json (reconcile st nodeData) = json st
  /\ contents (reconcile st nodeData) = contents st
  /\ hasChanges (reconcile st nodeData) = hasChanges st
  /\ nodes (reconcile st nodeData) = nodes st.
Proof. unfold reconcile. destruct (find _ _); repeat split. Qed.


Lemma save_success (st : Store) (ui : ModalState)
      (nodeData : NodeData) (t1 t2 : string) :
  selectedNode st = Some nodeData ->
  applyField (json_or_empty st) (targetPath_of nodeData) "name"
             (nameValue ui) = Ok t1 ->
  applyField t1 (targetPath_of nodeData) "color" (colorValue ui) = Ok t2 ->
  json (fst (save (st, ui))) = Some t2
  /\ contents (fst (save (st, ui))) = t2
  /\ hasChanges (fst (save (st, ui))) = false
  /\ nodes (fst (save (st, ui))) = parser t2.
Proof.
  intros Hsel H1 H2. unfold onSave. rewrite Hsel, (commit_ok _ _ _ _ _ _ _ _ H1 H2).
  cbn [fst snd].
  destruct (frame_reconcile (setContents (setJson parser st t2) t2 false) nodeData)
    as (-> & -> & -> & ->).
  repeat split.
Qed.

Lemma save_in_step (w : Store * ModalState) :
  json (fst w) = Some (contents (fst w)) ->
  nodes (fst w) = parser (contents (fst w)) ->
  json (fst (save w)) = Some (contents (fst (save w)))
  /\ nodes (fst (save w)) = parser (contents (fst (save w))).
Proof.
  destruct w as [st ui]. cbn [fst]. intros Hj Hn.
  destruct (selectedNode st) as [nodeData|] eqn:Hsel.
  - destruct (commit_cases modify applyEdits parser st ui nodeData)
      as [E|(t1 & t2 & H1 & H2 & _)].
    + unfold onSave. rewrite Hsel, E. auto.
    + destruct (save_success st ui nodeData t1 t2 Hsel H1 H2)
        as (-> & -> & _ & ->).
      auto.
  - unfold onSave. rewrite Hsel. auto.
Qed.

Lemma dispatch_in_step (w : Store * ModalState) (e : Event) :
  json (fst w) = Some (contents (fst w)) ->
  nodes (fst w) = parser (contents (fst w)) ->
  json (fst (dispatch' w e)) = Some (contents (fst (dispatch' w e)))
  /\ nodes (fst (dispatch' w e)) = parser (contents (fst (dispatch' w e))).
Proof.
  intros Hj Hn. unfold dispatch.
  destruct (rendered (snd w) e); [|auto].
  destruct e; cbn [handle fst]; auto using save_in_step.
Qed.

(** X10: the modal keeps the stores in step.  If the document is the text in
    the editor and the tree is the tree of that text, this is still so after
    any sequence of events: a Save that goes through replaces all three
    together, a Save that fails and every other event leave them alone. *)
Theorem run_keeps_stores_in_step (es : list Event) (w : Store * ModalState) :
  json (fst w) = Some (contents (fst w)) ->
  nodes (fst w) = parser (contents (fst w)) ->
  json (fst (run' es w)) = Some (contents (fst (run' es w)))
  /\ nodes (fst (run' es w)) = parser (contents (fst (run' es w))).
Proof.
  revert w. unfold run. induction es as [|e es IH]; intros w Hj Hn; [auto|].
  cbn [fold_left].
  destruct (dispatch_in_step w e Hj Hn) as [Hj' Hn'].
  now apply IH.
Qed.

(** X11: Save never clears the selection and never moves it to another
    path.  The node selected after Save is the node selected before, or a
    node of the tree whose path is the target path; either way it addresses
    the same location, so the next Save edits the same node of the
    document. *)
Theorem save_keeps_target (st : Store) (ui : ModalState) (nodeData : NodeData) :
  selectedNode st = Some nodeData ->
  exists m,
    selectedNode (fst (save (st, ui))) = Some m
    /\ targetPath_of m = targetPath_of nodeData
    /\ (m = nodeData
        \/ (In m (nodes (fst (save (st, ui))))
            /\ path m = Some (targetPath_of nodeData))).
Proof.
  intros Hsel. unfold onSave. rewrite Hsel.
  destruct (commit_cases modify applyEdits parser st ui nodeData)
    as [E|(t1 & t2 & H1 & H2 & E)]; rewrite E; cbn [fst].
  - exists nodeData. auto.
  - destruct (selected_reconcile
                (setContents (setJson parser st t2) t2 false) nodeData)
      as [[Hs _]|(m & Hs & Hin & Hp)].
    + exists nodeData. rewrite Hs. cbn. auto.
    + exists m. split; [exact Hs|]. split.
      * unfold targetPath_of at 1. now rewrite Hp.
      * right. split; [|exact Hp].
        destruct (frame_reconcile
                    (setContents (setJson parser st t2) t2 false) nodeData)
          as (_ & _ & _ & ->).
        exact Hin.
Qed.

Lemma dispatch_no_save (w : Store * ModalState) (e : Event) :
  is_save e = false -> fst (dispatch' w e) = fst w.
Proof.
  intros H. unfold dispatch. destruct (rendered (snd w) e); [|reflexivity].
  destruct e; try discriminate; reflexivity.
Qed.

(** X12: only Save writes to the stores.  Whatever sequence of clicks on
    Edit and Cancel, changes of the inputs and runs of the effect happens,
    the document, the editor contents, the tree and the selection are as
    they were; in particular Cancel publishes nothing. *)
Theorem run_without_save (es : list Event) (w : Store * ModalState) :
  forallb (fun e => negb (is_save e)) es = true ->
  fst (run' es w) = fst w.
Proof.
  revert w. unfold run. induction es as [|e es IH]; intros w H; [reflexivity|].
  cbn [forallb fold_left] in *. apply andb_true_iff in H. destruct H as [He Hes].
  rewrite (IH _ Hes). apply dispatch_no_save. now apply negb_true_iff.
Qed.

Lemma dispatch_click (w : Store * ModalState) (e : Event) :
  is_click_edit_or_cancel e = true ->
  fst (dispatch' w e) = fst w
  /\ nameValue (snd (dispatch' w e)) = nameValue (snd w)
  /\ colorValue (snd (dispatch' w e)) = colorValue (snd w).
Proof.
  intros H. unfold dispatch. destruct (rendered (snd w) e); [|auto].
  destruct e; try discriminate; auto.
Qed.

(** X13: Cancel does not discard the drafts.  Through any sequence of clicks
    on Edit and Cancel the stores are as they were, so that neither the
    selection changes nor the effect runs again, and the two drafts keep
    their values: clicking Edit after Cancel shows what was typed, not the
    values of the node. *)
Theorem run_clicks_keep_drafts (es : list Event) (w : Store * ModalState) :
  forallb is_click_edit_or_cancel es = true ->
  fst (run' es w) = fst w
  /\ nameValue (snd (run' es w)) = nameValue (snd w)
  /\ colorValue (snd (run' es w)) = colorValue (snd w).
Proof.
  revert w. unfold run. induction es as [|e es IH]; intros w H; [auto|].
  cbn [forallb fold_left] in *. apply andb_true_iff in H. destruct H as [He Hes].
  destruct (IH (dispatch' w e) Hes) as (-> & -> & ->).
  now apply dispatch_click.
Qed.


Section Contract.

Variable objectAt : string -> JSONPath -> bool.
Variable valueAt : string -> JSONPath -> option JsValue.
Hypothesis edit_applies : forall t p f v,
    objectAt t p = true ->
    exists t', applyField t p f v = Ok t' /\ objectAt t' p = true.
Hypothesis edit_sets : forall t p f v t',
    applyField t p f v = Ok t' ->
    valueAt t' (p ++ [SKey f])%list = Some (VStr v).
Hypothesis edit_frames : forall t p f g v t',
    f <> g ->
    applyField t p f v = Ok t' ->
    valueAt t' (p ++ [SKey g])%list = valueAt t (p ++ [SKey g])%list.

Lemma save_writes_drafts (st : Store) (ui : ModalState) (nodeData : NodeData) :
  selectedNode st = Some nodeData ->
  objectAt (json_or_empty st) (targetPath_of nodeData) = true ->
  exists t,
    json (fst (save (st, ui))) = Some t
    /\ valueAt t (targetPath_of nodeData ++ [SKey "name"])%list
       = Some (VStr (nameValue ui))
    /\ valueAt t (targetPath_of nodeData ++ [SKey "color"])%list
       = Some (VStr (colorValue ui)).
Proof.
  intros Hsel Hobj.
  destruct (edit_applies _ _ "name" (nameValue ui) Hobj) as (t1 & H1 & Hobj1).
  destruct (edit_applies _ _ "color" (colorValue ui) Hobj1) as (t2 & H2 & _).
  exists t2. split; [|split].
  - unfold onSave. rewrite Hsel, (commit_ok _ _ _ _ _ _ _ _ H1 H2).
    cbn [fst]. now rewrite json_reconcile.
  - assert (Hne : "color" <> "name") by discriminate.
    rewrite (edit_frames _ _ _ _ _ _ Hne H2).
    exact (edit_sets _ _ _ _ _ H1).
  - exact (edit_sets _ _ _ _ _ H2).
Qed.

(** X15: Save writes both fields whether or not they were changed, and
    writes them as strings.  When the effect has run on the selected node,
    an object of the document, and the user clicks Edit and then Save
    without typing, the text published holds under [name] and [color] the
    string forms of the values of the first rows so named, up to the case of
    the letters of their keys, and the empty string for a field with no such
    row or with the value null. *)
Theorem open_and_save_writes_strings (st : Store) (ui : ModalState)
        (nodeData : NodeData) :
  selectedNode st = Some nodeData ->
  editing ui = false ->
  objectAt (json_or_empty st) (targetPath_of nodeData) = true ->
  exists t,
    json (fst (run' [Effect; ClickEdit; ClickSave] (st, ui))) = Some t
    /\ valueAt t (targetPath_of nodeData ++ [SKey "name"])%list
       = Some (VStr (field_text (find (key_is "name") (text nodeData))))
    /\ valueAt t (targetPath_of nodeData ++ [SKey "color"])%list
       = Some (VStr (field_text (find (key_is "color") (text nodeData)))).
Proof.
  intros Hsel Hed Hobj. unfold run. cbn [fold_left].
  assert (E1 : dispatch' (st, ui) Effect = (st, initFields (Some nodeData) ui))
    by (unfold dispatch; cbn [snd rendered handle fst]; now rewrite Hsel).
  rewrite E1.
  assert (E2 : dispatch' (st, initFields (Some nodeData) ui) ClickEdit
               = (st, setEditing (initFields (Some nodeData) ui) true)).
  { unfold dispatch. cbn [snd rendered].
    assert (Hed' : editing (initFields (Some nodeData) ui) = false)
      by (cbn; exact Hed).
    rewrite Hed'. reflexivity. }
  rewrite E2.
  assert (E3 : dispatch' (st, setEditing (initFields (Some nodeData) ui) true)
                         ClickSave
               = save (st, setEditing (initFields (Some nodeData) ui) true))
    by reflexivity.
  rewrite E3.
  exact (save_writes_drafts st (setEditing (initFields (Some nodeData) ui) true)
                            nodeData Hsel Hobj).
Qed.

End Contract.

End Modal.

(** Edit, a change of the name, Cancel: nothing is published. *)
Lemma run_without_save_witness :
  fst (run FlatDoc.modify FlatDoc.applyEdits FlatDoc.parser
           [Effect; ClickEdit; ChangeName "z"; ClickCancel]
           (store_of doc_name node_root, mkModal false "y" "#fff"))
  = store_of doc_name node_root.
Proof.
  apply (run_without_save FlatDoc.modify FlatDoc.applyEdits FlatDoc.parser).
  reflexivity.
Defined.

(** Edit, Cancel, Edit: the drafts are the ones typed before. *)
Lemma run_clicks_keep_drafts_witness :
  fst (run FlatDoc.modify FlatDoc.applyEdits FlatDoc.parser
           [ClickEdit; ClickCancel; ClickEdit]
           (store_of doc_name node_root, mkModal false "typed" "#fff"))
  = store_of doc_name node_root
  /\ nameValue (snd (run FlatDoc.modify FlatDoc.applyEdits FlatDoc.parser
                          [ClickEdit; ClickCancel; ClickEdit]
                          (store_of doc_name node_root, mkModal false "typed" "#fff")))
     = "typed"
  /\ colorValue (snd (run FlatDoc.modify FlatDoc.applyEdits FlatDoc.parser
                           [ClickEdit; ClickCancel; ClickEdit]
                           (store_of doc_name node_root, mkModal false "typed" "#fff")))
     = "#fff".
Proof.
  apply (run_clicks_keep_drafts FlatDoc.modify FlatDoc.applyEdits FlatDoc.parser
           [ClickEdit; ClickCancel; ClickEdit]
           (store_of doc_name node_root, mkModal false "typed" "#fff")).
  reflexivity.
Defined.

(** Edit, a change of the name, Save, on the root of a document. *)
Lemma run_keeps_stores_in_step_witness :
  json (fst (run FlatDoc.modify FlatDoc.applyEdits FlatDoc.parser
                 [ClickEdit; ChangeName "z"; ClickSave]
                 (store_of doc_name node_root, mkModal false "y" "#fff")))
  = Some (contents
            (fst (run FlatDoc.modify FlatDoc.applyEdits FlatDoc.parser
                      [ClickEdit; ChangeName "z"; ClickSave]
                      (store_of doc_name node_root, mkModal false "y" "#fff"))))
  /\ nodes (fst (run FlatDoc.modify FlatDoc.applyEdits FlatDoc.parser
                     [ClickEdit; ChangeName "z"; ClickSave]
                     (store_of doc_name node_root, mkModal false "y" "#fff")))
     = FlatDoc.parser
         (contents
            (fst (run FlatDoc.modify FlatDoc.applyEdits FlatDoc.parser
                      [ClickEdit; ChangeName "z"; ClickSave]
                      (store_of doc_name node_root, mkModal false "y" "#fff")))).
Proof.
  apply (run_keeps_stores_in_step
           FlatDoc.modify FlatDoc.applyEdits FlatDoc.parser
           [ClickEdit; ChangeName "z"; ClickSave]
           (store_of doc_name node_root, mkModal false "y" "#fff"));
    reflexivity.
Defined.

(** Save on the root: the node selected afterwards is the root of the new
    tree. *)
Lemma save_keeps_target_witness :
  exists m,
    selectedNode (fst (onSave FlatDoc.modify FlatDoc.applyEdits FlatDoc.parser
                              (store_of doc_name node_root, draft))) = Some m
    /\ targetPath_of m = targetPath_of node_root
    /\ (m = node_root
        \/ (In m (nodes (fst (onSave FlatDoc.modify FlatDoc.applyEdits
                                     FlatDoc.parser
                                     (store_of doc_name node_root, draft))))
            /\ path m = Some (targetPath_of node_root))).
Proof.
  apply (save_keeps_target FlatDoc.modify FlatDoc.applyEdits FlatDoc.parser
           (store_of doc_name node_root) draft node_root).
  reflexivity.
Defined.

(** Open the modal on the root of the document with one member [name] and
    save at once: the color is written as the empty string. *)
Lemma open_and_save_writes_strings_witness :
  exists t,
    json (fst (run FlatDoc.modify FlatDoc.applyEdits FlatDoc.parser
                   [Effect; ClickEdit; ClickSave]
                   (store_of doc_name node_root, mkModal false "y" "#fff")))
    = Some t
    /\ FlatDoc.valueAt t (targetPath_of node_root ++ [SKey "name"])%list
       = Some (VStr "x")
    /\ FlatDoc.valueAt t (targetPath_of node_root ++ [SKey "color"])%list
       = Some (VStr EmptyString).
Proof.
  apply (open_and_save_writes_strings
           FlatDoc.modify FlatDoc.applyEdits FlatDoc.parser
           FlatDoc.objectAt FlatDoc.valueAt
           FlatDocFacts.field_edit_applies
           FlatDocFacts.field_edit_sets FlatDocFacts.field_edit_frames
           (store_of doc_name node_root) (mkModal false "y" "#fff") node_root);
    reflexivity.
Defined.
